(** * NSEC cache datastore: name-ordering and payload codec

    A shallow embedding of the [nsecchain] Python package
    (encoder.py, decoder.py, ordering.py, parser.py) together with the
    pieces of the Python runtime those modules call ([str] methods,
    [range], slicing, [base64.b32encode] / [base64.b32decode],
    [re.match], [int], the [04d] format), followed by the properties of
    the codec and of the naming scheme.

    Conventions.
    - A Python [str] is a [list ascii]; DNS presentation names are ASCII
      text, and [lower] / [upper] change the letters A-Z / a-z only.
    - A Python [bytes] is a [list byte].
    - A Python [int] is a [Z].
    - A function that may raise returns [option]; [None] is the raised
      exception.  A function returning [Optional[...]] in the source
      also returns [option], its [None] being Python's [None]; no
      function of the package does both. *)

From Stdlib Require Import Strings.Ascii Strings.String Strings.Byte.
From Stdlib Require Import ZArith List Bool Lia.
Import ListNotations.
Local Open Scope Z_scope.

Abbreviation str := (list ascii) (only parsing).
Abbreviation bytes := (list byte) (only parsing).

(** String literals of the source, as [str]. *)
Definition lit (s : string) : str := list_ascii_of_string s.

(** Bytes literals of the source ([b'...']). *)
Definition blit (s : string) : bytes := list_byte_of_string s.

(** ** The Python runtime, as far as the package uses it *)
Module Py.

Definition len {A} (l : list A) : Z := Z.of_nat (length l).

Definition code (c : ascii) : Z := Z.of_N (N_of_ascii c).

Definition chr (n : Z) : ascii := ascii_of_N (Z.to_N n).

(** [str.lower] and [str.upper] on ASCII text, where the letters A-Z
    and a-z are the only characters they change.  The statements below
    that upper-case a text, or read digits off it, assume that the text
    is ASCII. *)
Definition lower_char (c : ascii) : ascii :=
  if (65 <=? code c) && (code c <=? 90) then chr (code c + 32) else c.

Definition upper_char (c : ascii) : ascii :=
  if (97 <=? code c) && (code c <=? 122) then chr (code c - 32) else c.

Definition lower (s : str) : str := map lower_char s.
Definition upper (s : str) : str := map upper_char s.

(** [s.rstrip(c)] for a one-character argument: the trailing run of
    [c] is removed. *)
Fixpoint rstrip {A} (is_c : A -> bool) (s : list A) : list A :=
  match s with
  | [] => []
  | x :: t =>
      match rstrip is_c t with
      | [] => if is_c x then [] else [x]
      | t' => x :: t'
      end
  end.

Definition is_char (c : ascii) : ascii -> bool := Ascii.eqb c.

(** Membership of a byte in a bytes object. *)
Definition in_bytes (set : bytes) (b : byte) : bool :=
existsb (Byte.eqb b) set.

Fixpoint str_eqb (a b : str) : bool :=
  match a, b with
  | [], [] => true
  | x :: a', y :: b' => Ascii.eqb x y && str_eqb a' b'
  | _, _ => false
  end.

(** [s.startswith(p)] and [s.endswith(p)]. *)
Fixpoint startswith (s p : str) : bool :=
  match p, s with
  | [], _ => true
  | _ :: _, [] => false
  | y :: p', x :: s' => Ascii.eqb x y && startswith s' p'
  end.

Definition endswith (s p : str) : bool :=
  (length p <=? length s)%nat
  && str_eqb (skipn (length s - length p) s) p.

(** [s[:-n]] for [n > 0]: everything but the last [n] characters
    (empty when [n] exceeds the length). *)
Definition drop_last {A} (n : nat) (s : list A) : list A :=
  firstn (length s - n) s.

(** [s[i:j]] for indices [0 <= i], [0 <= j]. *)
Definition slice {A} (s : list A) (i j : Z) : list A :=
  firstn (Z.to_nat j - Z.to_nat i) (skipn (Z.to_nat i) s).

(** [s.split(c)]: never empty; consecutive separators give empty
    fields. *)
Fixpoint split (c : ascii) (s : str) : list str :=
  match s with
  | [] => [[]]
  | x :: t =>
      if Ascii.eqb x c then [] :: split c t
      else match split c t with
           | h :: r => (x :: h) :: r
           | [] => [[x]]
           end
  end.

(** [sep.join(parts)]. *)
Fixpoint join (sep : str) (parts : list str) : str :=
  match parts with
  | [] => []
  | [p] => p
  | p :: rest => p ++ sep ++ join sep rest
  end.

(** [s.replace(c, '')]. *)
Definition remove_char (c : ascii) (s : str) : str :=
  filter (fun x => negb (Ascii.eqb x c)) s.

(** [a < b] on strings: lexicographic on code points, a proper prefix
    being smaller. *)
Fixpoint str_lt (a b : str) : bool :=
  match a, b with
  | _, [] => false
  | [], _ :: _ => true
  | x :: a', y :: b' =>
      if code x <? code y then true
      else if code x =? code y then str_lt a' b'
      else false
  end.

(** [range(start, stop, step)] for [step <> 0]; a zero step raises
    [ValueError], which the callers below test for before the loop. *)
Fixpoint range_up (fuel : nat) (i stop step : Z) : list Z :=
  match fuel with
  | O => []
  | S f => if i <? stop then i :: range_up f (i + step) stop step else []
  end.

Fixpoint range_down (fuel : nat) (i stop step : Z) : list Z :=
  match fuel with
  | O => []
  | S f => if stop <? i then i :: range_down f (i + step) stop step else []
  end.

Definition range (start stop step : Z) : list Z :=
  if 0 <? step then range_up (Z.to_nat (stop - start)) start stop step
  else range_down (Z.to_nat (start - stop)) start stop step.

(** [x * n] for a sequence [x] of one element: empty when [n <= 0]. *)
Definition times {A} (x : A) (n : Z) : list A := repeat x (Z.to_nat n).

(** Decimal digits. *)
Definition is_digit (c : ascii) : bool :=
  (48 <=? code c) && (code c <=? 57).

Definition digit_char (d : Z) : ascii := chr (48 + d).
Definition digit_val (c : ascii) : Z := code c - 48.

(** [str(n)] for [n >= 0]: the digits, most significant first. *)
Fixpoint digits_loop (fuel : nat) (n : Z) (acc : str) : str :=
  match fuel with
  | O => acc
  | S f =>
      let acc' := digit_char (n mod 10) :: acc in
      if n / 10 =? 0 then acc' else digits_loop f (n / 10) acc'
  end.

Definition str_of_nonneg (n : Z) : str :=
  digits_loop (S (Z.to_nat (Z.log2 n))) n [].

(** [s.zfill(w)] on a digit string. *)
Definition zfill (w : nat) (s : str) : str :=
  repeat "0"%char (w - length s) ++ s.

(** [f"{i:04d}"]: at least four characters, the sign (if any) first
    and counted in the width. *)
Definition format_04d (i : Z) : str :=
  if i <? 0 then "-"%char :: zfill 3 (str_of_nonneg (- i))
  else zfill 4 (str_of_nonneg i).

(** [int(s)] on a run of decimal digits. *)
Definition int_of_digits (s : str) : Z :=
  fold_left (fun acc c => acc * 10 + digit_val c) s 0.

(** [re.match(r'^n(\d+)$', s)]: the group, when [s] is [n] followed by
    one or more digits; [$] also matches just before a final
    newline. *)
Definition newline : ascii := chr 10.

Definition match_n_digits (s : str) : option str :=
  match s with
  | c :: rest =>
      if Ascii.eqb c "n"%char then
        let ds := match rev rest with
                  | x :: r => if Ascii.eqb x newline then rev r else rest
                  | [] => rest
                  end in
        match ds with
        | [] => None
        | _ => if forallb is_digit ds then Some ds else None
        end
      else None
  | [] => None
  end.

End Py.

(** ** [base64.b32encode] and [base64.b32decode] (RFC 4648) *)
Module Base32.
Import Py.

(** [_b32alphabet]. *)
Definition b32alphabet : str := lit "ABCDEFGHIJKLMNOPQRSTUVWXYZ234567".

Definition b32tab (i : Z) : ascii :=
  nth (Z.to_nat i) b32alphabet "="%char.

(** [_b32tab2[i]]: the two characters of a 10-bit group. *)
Definition b32tab2 (i : Z) : str :=
  [b32tab (Z.shiftr i 5); b32tab (Z.land i 31)].

(** [_b32rev[c]]; [None] is the [KeyError]. *)
Fixpoint index_of (c : ascii) (l : str) (i : Z) : option Z :=
  match l with
  | [] => None
  | x :: t => if Ascii.eqb x c then Some i else index_of c t (i + 1)
  end.

Definition b32rev (c : ascii) : option Z := index_of c b32alphabet 0.

Definition byte_val (b : byte) : Z := Z.of_N (Byte.to_N b).

(** [int.from_bytes(s)], big endian. *)
Definition from_bytes (s : bytes) : Z :=
  fold_left (fun acc b => acc * 256 + byte_val b) s 0.

(** [acc.to_bytes(5)], big endian; [None] is the [OverflowError]. *)
Definition to_bytes5 (acc : Z) : option bytes :=
  if (0 <=? acc) && (acc <? 2 ^ 40) then
    match Byte.of_N (Z.to_N (Z.land (Z.shiftr acc 32) 255)),
          Byte.of_N (Z.to_N (Z.land (Z.shiftr acc 24) 255)),
          Byte.of_N (Z.to_N (Z.land (Z.shiftr acc 16) 255)),
          Byte.of_N (Z.to_N (Z.land (Z.shiftr acc 8) 255)),
          Byte.of_N (Z.to_N (Z.land acc 255)) with
    | Some b0, Some b1, Some b2, Some b3, Some b4 =>
        Some [b0; b1; b2; b3; b4]
    | _, _, _, _, _ => None
    end
  else None.

(** One turn of the encoding loop: five bytes to eight characters. *)
Definition encode_quantum (q : bytes) : str :=
  let c := from_bytes q in
  b32tab2 (Z.shiftr c 30)
  ++ b32tab2 (Z.land (Z.shiftr c 20) 1023)
  ++ b32tab2 (Z.land (Z.shiftr c 10) 1023)
  ++ b32tab2 (Z.land c 1023).

(** [encoded[-n:] = b'=' * n]. *)
Definition set_tail_pad (n : nat) (encoded : str) : str :=
  drop_last n encoded ++ repeat "="%char n.

Definition b32encode (s : bytes) : str :=
  let leftover := len s mod 5 in
  let s := if leftover =? 0 then s
           else s ++ times x00 (5 - leftover) in
  let encoded :=
    concat (map (fun i => encode_quantum (slice s i (i + 5)))
                (range 0 (len s) 5)) in
  if leftover =? 1 then set_tail_pad 6 encoded
  else if leftover =? 2 then set_tail_pad 4 encoded
  else if leftover =? 3 then set_tail_pad 3 encoded
  else if leftover =? 4 then set_tail_pad 1 encoded
  else encoded.

(** The inner loop of the decoder over one quantum. *)
Fixpoint decode_acc (quanta : str) (acc : Z) : option Z :=
  match quanta with
  | [] => Some acc
  | c :: t =>
      match b32rev c with
      | Some v => decode_acc t (Z.shiftl acc 5 + v)
      | None => None
      end
  end.

(** The outer loop: the bytes decoded so far and the last [acc]. *)
Fixpoint decode_loop (s : str) (idxs : list Z) (decoded : bytes) (acc : Z)
  : option (bytes * Z) :=
  match idxs with
  | [] => Some (decoded, acc)
  | i :: rest =>
      match decode_acc (slice s i (i + 8)) 0 with
      | Some acc' =>
          match to_bytes5 acc' with
          | Some bs => decode_loop s rest (decoded ++ bs) acc'
          | None => None
          end
      | None => None
      end
  end.

Definition b32decode (s : str) : option bytes :=
  if negb (len s mod 8 =? 0) then None
  else
    let l := len s in
    let s := rstrip (is_char "="%char) s in
    let padchars := l - len s in
    match decode_loop s (range 0 (len s) 8) [] 0 with
    | None => None
    | Some (decoded, acc) =>
        if negb (existsb (Z.eqb padchars) [0; 1; 3; 4; 6]) then None
        else if negb (padchars =? 0) && negb (Nat.eqb (length decoded) 0)
        then
          match to_bytes5 (Z.shiftl acc (5 * padchars)) with
          | Some last =>
              let leftover := (43 - 5 * padchars) / 8 in
              Some (drop_last 5 decoded ++ slice last 0 leftover)
          | None => None
          end
        else Some decoded
    end.

End Base32.

(** ** encoder.py *)
Module Encoder.
Import Py.

Definition encode_chunk (chunk : bytes) : str :=
  let encoded := Base32.b32encode chunk in
  lower (rstrip (is_char "="%char) encoded).

(** [None] is the [ValueError] of [range] for a zero step. *)
Definition split_into_labels (encoded : str) (max_label_len : Z)
  : option (list str) :=
  match encoded with
  | [] => Some []
  | _ =>
      if max_label_len =? 0 then None
      else Some (map (fun i => slice encoded i (i + max_label_len))
                     (range 0 (len encoded) max_label_len))
  end.

Definition filler : byte := "_"%byte.

Definition pad_chunk (chunk_size : Z) (chunk : bytes) : bytes :=
  if len chunk <? chunk_size
  then chunk ++ times filler (chunk_size - len chunk)
  else chunk.

Definition chunk_message (message : bytes) (chunk_size : Z)
  : option (list bytes) :=
  if chunk_size =? 0 then None
  else
    let chunks :=
      map (fun i => pad_chunk chunk_size (slice message i (i + chunk_size)))
          (range 0 (len message) chunk_size) in
    match chunks with
    | [] => Some [times filler chunk_size]
    | _ => Some chunks
    end.

End Encoder.

(** ** decoder.py *)
Module Decoder.
Import Py.

(** [None] is the [ValueError]. *)
Definition decode_labels (labels : str) : option bytes :=
  let clean := remove_char "."%char labels in
  let clean := upper clean in
  let padding_needed := (8 - len clean mod 8) mod 8 in
  let clean := clean ++ times "="%char padding_needed in
  Base32.b32decode clean.

(** [data.rstrip(padding_char)]: the trailing bytes that occur in
    [padding_char] are removed. *)
Definition strip_padding (data padding_char : bytes) : bytes :=
  rstrip (in_bytes padding_char) data.

(** [b''.join(decode_labels(c) for c in encoded_chunks)]; the first
    chunk that fails to decode raises. *)
Fixpoint join_decoded (encoded_chunks : list str) : option bytes :=
  match encoded_chunks with
  | [] => Some []
  | c :: rest =>
      match decode_labels c with
      | Some b =>
          match join_decoded rest with
          | Some bs => Some (b ++ bs)
          | None => None
          end
      | None => None
      end
  end.

Definition decode_payload_chunks (encoded_chunks : list str)
  : option bytes :=
  match join_decoded encoded_chunks with
  | Some decoded => Some (strip_padding decoded (blit "_"))
  | None => None
  end.

End Decoder.

(** ** ordering.py *)
Module Ordering.
Import Py.

Definition dot : str := ["."%char].
Definition is_dot : ascii -> bool := is_char "."%char.

Definition node_name_for_index
  (index : Z) (encoded_payload zone : str) (absolute : bool) : str :=
  let zone := rstrip is_dot zone in
  let name := ("n"%char :: format_04d index)
              ++ dot ++ encoded_payload ++ dot ++ zone in
  if absolute then name ++ dot else name.

Definition in_gap_name
  (index : Z) (zone suffix : str) (absolute : bool) : str :=
  let zone := rstrip is_dot zone in
  let name := ("n"%char :: format_04d index) ++ suffix ++ dot ++ zone in
  if absolute then name ++ dot else name.

Definition suffixes : list str :=
  map lit ["m"; "k"; "j"; "h"; "g"; "f"; "e"; "d"; "c"; "b"]%string.

Definition verification_in_gap_name
  (index : Z) (zone : str) (variant : Z) : str :=
  let suffix := nth (Z.to_nat (variant mod len suffixes)) suffixes [] in
  in_gap_name index zone suffix true.

Definition is_name_between (name lower upper : str) : bool :=
  let name := rstrip is_dot (Py.lower name) in
  let lower := rstrip is_dot (Py.lower lower) in
  let upper := rstrip is_dot (Py.lower upper) in
  str_lt lower name && str_lt name upper.

Definition parse_node_name (name zone : str) : option (Z * str) :=
  let zone := rstrip is_dot zone in
  let name := Py.lower (rstrip is_dot name) in
  let zone_suffix := dot ++ Py.lower zone in
  if negb (endswith name zone_suffix) then None
  else
    let prefix := drop_last (length zone_suffix) name in
    let parts := split "."%char prefix in
    if (length parts <? 2)%nat then None
    else
      match match_n_digits (hd [] parts) with
      | None => None
      | Some ds =>
          let index := int_of_digits ds in
          let payload := join dot (tl parts) in
          Some (index, payload)
      end.

End Ordering.

(** ** parser.py *)
Module Parser.
Import Py.

(** [next_name] is given by its presentation text
    ([next_name.to_text()]). *)
Definition extract_payload_from_next_name (next_name zone : str)
  : option str :=
  let name_str := lower next_name in
  let zone := rstrip Ordering.is_dot (lower zone) in
  if negb (endswith (rstrip Ordering.is_dot name_str) zone) then None
  else
    let prefix := rstrip Ordering.is_dot name_str in
    let zone_suffix := Ordering.dot ++ zone in
    let prefix := if endswith prefix zone_suffix
                  then drop_last (length zone_suffix) prefix
                  else prefix in
    let labels := split "."%char prefix in
    if Nat.eqb (length labels) 0
       || negb (startswith (hd [] labels) (lit "n"))
    then None
    else if (length labels <? 2)%nat then None
    else Some (join Ordering.dot (tl labels)).

End Parser.

(** ** The rest of the package and its scripts

    The functions below are the remaining pure functions of
    encoder.py, decoder.py and ordering.py, the name builders of
    auth/generate_zone.py, and the payload decoder of scripts/prime.py
    (scripts/verify_synthesis.py has the same one). *)

(** [str.isdigit]. *)
Module PyText.
Import Py.

(** The characters below U+0100 that [str.isdigit] accepts: the digits
    0-9 and the superscripts U+00B2, U+00B3 and U+00B9. *)
Definition isdigit_char (c : ascii) : bool :=
  is_digit c || (code c =? 178) || (code c =? 179) || (code c =? 185).

(** [s.isdigit()]: at least one character, all of them digits. *)
Definition isdigit (s : str) : bool :=
  match s with
  | [] => false
  | _ => forallb isdigit_char s
  end.

End PyText.

(** encoder.py, [encode_message]. *)
Module EncoderText.
Import Py.

Section Text.
(** The text type of the runtime and its [str.encode('utf-8')], [None]
    being the [UnicodeEncodeError]. *)
Variable text : Type.
Variable utf8_encode : text -> option bytes.

(** [None] is the exception of [encode] or the [ValueError] of
    [chunk_message]. *)
Definition encode_message (message : text) (chunk_size : Z)
  : option (list str) :=
  match utf8_encode message with
  | None => None
  | Some message_bytes =>
      match Encoder.chunk_message message_bytes chunk_size with
      | Some chunks => Some (map Encoder.encode_chunk chunks)
      | None => None
      end
  end.

End Text.

End EncoderText.

(** decoder.py, [decode_chunk] and [extract_payload_labels]. *)
Module DecoderNames.
Import Py.

Definition decode_chunk (encoded : str) : option bytes :=
  Decoder.decode_labels encoded.

Definition extract_payload_labels (fqdn zone : str) : option str :=
  let zone := rstrip Ordering.is_dot zone in
  let fqdn := rstrip Ordering.is_dot fqdn in
  if negb (endswith fqdn (Ordering.dot ++ zone)) then None
  else
    let prefix := drop_last (length zone + 1) fqdn in
    let labels := split "."%char prefix in
    if (length labels <? 2)%nat then None
    else if negb (startswith (hd [] labels) (lit "n")
                  && PyText.isdigit (tl (hd [] labels)))
    then None
    else Some (join Ordering.dot (tl labels)).

End DecoderNames.

(** ordering.py, [extract_index_from_name] and [get_next_node_index]. *)
Module OrderingIndex.
Import Py.

Definition extract_index_from_name (name : str) : option Z :=
  let first_label := lower (hd [] (split "."%char name)) in
  match match_n_digits first_label with
  | Some ds => Some (int_of_digits ds)
  | None => None
  end.

(** A parsed pair is never falsy, so [if parsed] is the test for
    [None]. *)
Definition get_next_node_index (current_name zone : str) : option Z :=
  match Ordering.parse_node_name current_name zone with
  | Some parsed => Some (fst parsed)
  | None => None
  end.

End OrderingIndex.

(** auth/generate_zone.py: its own copies of the encoder functions and
    [generate_node_name]. *)
Module AuthZone.
Import Py.


(** [None] is the [ValueError] of [range] for a zero step. *)
Definition split_into_labels (encoded : str) (max_label_len : Z)
  : option (list str) :=
  if max_label_len =? 0 then None
  else Some (map (fun i => slice encoded i (i + max_label_len))
                 (range 0 (len encoded) max_label_len)).

Definition chunk_message (message : bytes) (chunk_size : Z)
  : option (list bytes) :=
  if chunk_size =? 0 then None
  else Some (map (fun i =>
                    let chunk := slice message i (i + chunk_size) in
                    if len chunk <? chunk_size
                    then chunk ++ times "_"%byte (chunk_size - len chunk)
                    else chunk)
                 (range 0 (len message) chunk_size)).


End AuthZone.

(** scripts/prime.py: [decode_payload]. *)
Module Prime.
Import Py.

Section TextDecoding.
(** [bytes.decode('utf-8')], [None] being the [UnicodeDecodeError], and
    [bytes.decode('utf-8', errors='replace')]. *)
Variable utf8_decode : bytes -> option str.
Variable utf8_decode_replace : bytes -> str.

(** One turn of the loop: a chunk that fails to decode is reported and
    skipped. *)
Definition decode_step (decoded_bytes : bytes) (chunk : str) : bytes :=
  match Decoder.decode_labels chunk with
  | Some decoded => decoded_bytes ++ decoded
  | None => decoded_bytes
  end.

Definition decode_payload (chunks : list str) : str :=
  let decoded_bytes := fold_left decode_step chunks [] in
  let decoded_bytes := Decoder.strip_padding decoded_bytes (blit "_") in
  match utf8_decode decoded_bytes with
  | Some text => text
  | None => utf8_decode_replace decoded_bytes
  end.

End TextDecoding.

End Prime.

(** ** Specification-side vocabulary *)

(** [ceil(a / b)] for [b > 0]; [ceil_div_spec] below shows that it is
    the least [q] with [a <= q * b]. *)
Definition ceil_div (a b : Z) : Z := (a + b - 1) / b.

(** The consecutive windows of width [k] of a list, used to reason
    about the [for i in range(0, len(s), k): s[i:i + k]] loops. *)
Fixpoint windows {A} (fuel k : nat) (l : list A) : list (list A) :=
  match fuel with
  | O => []
  | S f =>
      match l with
      | [] => []
      | _ => firstn k l :: windows f k (skipn k l)
      end
  end.

Definition chunks {A} (k : nat) (l : list A) : list (list A) :=
  windows (length l) k l.

(** The eight 5-bit groups that one turn of the encoding loop looks up,
    in the order of the output characters. *)
Definition quantum_digits (c : Z) : list Z :=
  [ Z.shiftr (Z.shiftr c 30) 5; Z.land (Z.shiftr c 30) 31;
    Z.shiftr (Z.land (Z.shiftr c 20) 1023) 5;
    Z.land (Z.land (Z.shiftr c 20) 1023) 31;
    Z.shiftr (Z.land (Z.shiftr c 10) 1023) 5;
    Z.land (Z.land (Z.shiftr c 10) 1023) 31;
    Z.shiftr (Z.land c 1023) 5; Z.land (Z.land c 1023) 31 ].

(** The accumulator of the decoding loop, on 5-bit groups. *)
Definition fold_digits (ds : list Z) (a : Z) : Z :=
  fold_left (fun a d => Z.shiftl a 5 + d) ds a.

(** The number of [=] that [b32encode] writes after a last group of
    [r] bytes. *)
Definition npad (r : nat) : nat :=
  match r with
  | 1 => 6 | 2 => 4 | 3 => 3 | 4 => 1 | _ => 0
  end%nat.

(** The last, partial group of the encoder's input, filled with zero
    bytes, and the characters that [b32encode] keeps of its encoding. *)
Definition tail_quantum (T : list byte) : list byte :=
  T ++ Py.times x00 (5 - Py.len T).

Definition tail_chars (T : list byte) : list ascii :=
  match T with
  | [] => []
  | _ => firstn (8 - npad (length T)) (Base32.encode_quantum (tail_quantum T))
  end.

(** The decoder's outer loop, on the list of its quanta. *)
Fixpoint decode_ws (ws : list (list ascii)) (decoded : list byte) (acc : Z)
  : option (list byte * Z) :=
  match ws with
  | [] => Some (decoded, acc)
  | w :: rest =>
      match Base32.decode_acc w 0 with
      | Some acc' =>
          match Base32.to_bytes5 acc' with
          | Some bs => decode_ws rest (decoded ++ bs) acc'
          | None => None
          end
      | None => None
      end
  end.

(** A valid payload text: not empty, made of lowercase base32
    characters and dots, no label between the dots empty. *)
Definition is_b32_lower (c : ascii) : bool :=
  ((97 <=? Py.code c) && (Py.code c <=? 122))
  || ((50 <=? Py.code c) && (Py.code c <=? 55)).

Definition is_nil {A} (l : list A) : bool :=
  match l with [] => true | _ => false end.

Definition valid_payload_text (p : list ascii) : bool :=
  negb (is_nil p)
  && forallb (fun c => is_b32_lower c || Ordering.is_dot c) p
  && forallb (fun l => negb (is_nil l)) (Py.split "."%char p).

(** A valid zone: not empty, lowercase, no trailing dot. *)
Definition valid_zone (z : list ascii) : bool :=
  match rev z with
  | [] => false
  | c :: _ => negb (Ordering.is_dot c)
  end
  && Py.str_eqb (Py.lower z) z.

(** What the codec needs of a character of the alphabet. *)
Definition tab_ok (d : Z) : bool :=
  match Base32.b32rev (Base32.b32tab d) with Some v => v =? d | None => false end
  && negb (Ascii.eqb (Base32.b32tab d) "="%char)
  && negb (Ascii.eqb (Py.lower_char (Base32.b32tab d)) "="%char)
  && negb (Ascii.eqb (Py.lower_char (Base32.b32tab d)) "."%char)
  && Ascii.eqb (Py.upper_char (Py.lower_char (Base32.b32tab d))) (Base32.b32tab d).

(** The index label [n{index:04d}]. *)
Definition index_label (index : Z) : list ascii :=
  "n"%char :: Py.format_04d index.

(** [a < b] decided at a position where both strings have a character
    (neither is a prefix of the other). *)
Fixpoint str_lt_strict (a b : list ascii) : bool :=
  match a, b with
  | x :: a', y :: b' =>
      if Py.code x <? Py.code y then true
      else if Py.code x =? Py.code y then str_lt_strict a' b'
      else false
  | _, _ => false
  end.

(** The eleven probe names of one interval: the priming name and the
    ten verification names. *)
Definition gap_names (index : Z) (zone : list ascii) : list (list ascii) :=
  Ordering.in_gap_name index zone (lit "z") true
  :: map (Ordering.verification_in_gap_name index zone)
         [0; 1; 2; 3; 4; 5; 6; 7; 8; 9].

(** ASCII text: every character below U+0080.  On such text
    [Py.lower], [Py.upper] and [PyText.isdigit] are [str.lower],
    [str.upper] and [str.isdigit] exactly; outside it [str.upper] and
    [str.lower] change more characters than the letters a-z and A-Z. *)
Definition is_ascii_text (s : list ascii) : bool :=
  forallb (fun c => Py.code c <? 128) s.

(** The message of scenario D. *)
Definition scenario_message : bytes := blit "hello from nsec cache datastore".

Import Py.

(** * Proofs *)

(** ** The embedding on the documented examples

    The values below are those of the docstrings and of the unit tests
    of the package. *)
Section Examples.

Example encode_hello : Encoder.encode_chunk (blit "hello") = lit "nbswy3dp".
Proof. reflexivity. Qed.

Example decode_hello : Decoder.decode_labels (lit "nbswy3dp") = Some (blit "hello").
Proof. reflexivity. Qed.

Example decode_bad_text : Decoder.decode_labels (lit "a1") = None.
Proof. reflexivity. Qed.

Example chunk_hello_world :
  Encoder.chunk_message (blit "hello world") 4
  = Some [blit "hell"; blit "o wo"; blit "rld_"].
Proof. reflexivity. Qed.

Example chunk_empty : Encoder.chunk_message (blit "") 4 = Some [blit "____"].
Proof. reflexivity. Qed.

Example split_custom :
  Encoder.split_into_labels (lit "abcdefghij") 3
  = Some [lit "abc"; lit "def"; lit "ghi"; lit "j"].
Proof. reflexivity. Qed.

Example strip_hello :
  Decoder.strip_padding (blit "hello___") (blit "_") = blit "hello".
Proof. reflexivity. Qed.

Example node_name_0 :
  Ordering.node_name_for_index 0 (lit "nbswy3dp") (lit "zone.test") true
  = lit "n0000.nbswy3dp.zone.test.".
Proof. reflexivity. Qed.

Example node_name_relative :
  Ordering.node_name_for_index 0 (lit "payload") (lit "zone.test") false
  = lit "n0000.payload.zone.test".
Proof. reflexivity. Qed.

Example gap_name_42 :
  Ordering.in_gap_name 42 (lit "zone.test") (lit "z") true
  = lit "n0042z.zone.test.".
Proof. reflexivity. Qed.

Example verification_gap_0 :
  Ordering.verification_in_gap_name 0 (lit "zone.test") 0
  = lit "n0000m.zone.test.".
Proof. reflexivity. Qed.

Example between_case_insensitive :
  Ordering.is_name_between (lit "N0000Z.zone.test.")
    (lit "n0000.a.zone.test.") (lit "N0001.zone.test.") = true.
Proof. reflexivity. Qed.

Example not_between_upper :
  Ordering.is_name_between (lit "n0002.zone.test.")
    (lit "n0000.zone.test.") (lit "n0001.zone.test.") = false.
Proof. reflexivity. Qed.

Example parse_multi_label :
  Ordering.parse_node_name (lit "n0001.abc.def.ghi.zone.test.") (lit "zone.test")
  = Some (1, lit "abc.def.ghi").
Proof. reflexivity. Qed.

Example parse_upper_case :
  Ordering.parse_node_name (lit "N0001.PAYLOAD.ZONE.TEST.") (lit "zone.test")
  = Some (1, lit "payload").
Proof. reflexivity. Qed.

Example parse_other_zone :
  Ordering.parse_node_name (lit "n0001.payload.other.zone.") (lit "zone.test")
  = None.
Proof. reflexivity. Qed.

Example parse_not_a_node :
  Ordering.parse_node_name (lit "invalid.zone.test.") (lit "zone.test") = None.
Proof. reflexivity. Qed.

Example extract_next_name_payload :
  Parser.extract_payload_from_next_name (lit "n0001.nbswy3dp.zone.test.")
    (lit "zone.test") = Some (lit "nbswy3dp").
Proof. reflexivity. Qed.

Example extract_end_marker :
  Parser.extract_payload_from_next_name (lit "n0004.end.zone.test.")
    (lit "zone.test") = Some (lit "end").
Proof. reflexivity. Qed.

End Examples.

(** ** Lists, [rstrip], windows *)
Section ListFacts.
Context {A : Type}.
Implicit Types (l s t : list A) (f : A -> bool).

Lemma len_app l t : len (l ++ t) = len l + len t.
Proof. unfold len. rewrite length_app. lia. Qed.

Lemma times_length (x : A) n : length (times x n) = Z.to_nat n.
Proof. apply repeat_length. Qed.

Lemma rstrip_app_nil f s t :
  rstrip f t = [] -> rstrip f (s ++ t) = rstrip f s.
Proof.
  intros Ht. induction s as [|x s IH]; simpl; [exact Ht|].
  now rewrite IH.
Qed.

Lemma rstrip_app_keep f s t :
  rstrip f t <> [] -> rstrip f (s ++ t) = s ++ rstrip f t.
Proof.
  intros Ht. induction s as [|x s IH]; simpl; [reflexivity|].
  rewrite IH. destruct (s ++ rstrip f t) eqn:E; [|reflexivity].
  apply app_eq_nil in E. tauto.
Qed.

Lemma rstrip_repeat f x n : f x = true -> rstrip f (repeat x n) = [].
Proof.
  intros Hx. induction n as [|n IH]; simpl; [reflexivity|].
  now rewrite IH, Hx.
Qed.

Lemma rstrip_app_repeat f s x n :
  f x = true -> rstrip f (s ++ repeat x n) = rstrip f s.
Proof. intros Hx. apply rstrip_app_nil, rstrip_repeat, Hx. Qed.

Lemma rstrip_snoc_keep f s x : f x = false -> rstrip f (s ++ [x]) = s ++ [x].
Proof.
  intros Hx. rewrite rstrip_app_keep; simpl; rewrite Hx; [reflexivity|discriminate].
Qed.

Lemma rstrip_prefix f s : exists t, s = rstrip f s ++ t /\ forallb f t = true.
Proof.
  induction s as [|x s [t [E Ht]]]; simpl.
  - exists []. auto.
  - destruct (rstrip f s) eqn:R.
    + destruct (f x) eqn:Fx.
      * exists (x :: t). simpl in *. rewrite Fx, Ht. split; [now f_equal|reflexivity].
      * exists t. simpl in *. split; [now f_equal|exact Ht].
    + exists t. split; [|exact Ht]. simpl. now f_equal.
Qed.

Lemma rstrip_idem f s : rstrip f (rstrip f s) = rstrip f s.
Proof.
  induction s as [|x s IH]; simpl; [reflexivity|].
  destruct (rstrip f s) as [|y r] eqn:R.
  - destruct (f x) eqn:Fx; simpl; [reflexivity|now rewrite Fx].
  - change (rstrip f (x :: y :: r)) with
      (match rstrip f (y :: r) with
       | [] => if f x then [] else [x] | t' => x :: t' end).
    now rewrite IH.
Qed.

(** The last element that [rstrip] keeps is not a stripped one. *)
Lemma rstrip_last f s d : rstrip f s <> [] -> f (last (rstrip f s) d) = false.
Proof.
  induction s as [|x s IH]; simpl; [congruence|].
  destruct (rstrip f s) as [|y r] eqn:R.
  - destruct (f x) eqn:Fx; [congruence|]. simpl. now rewrite Fx.
  - intros _. change (last (x :: y :: r) d) with (last (y :: r) d).
    apply IH. discriminate.
Qed.

(** *** Windows *)

Lemma windows_fuel k l n m :
  (0 < k)%nat -> (length l <= n)%nat -> (length l <= m)%nat ->
  windows n k l = windows m k l.
Proof.
  intros Hk. revert l m. induction n as [|n IH]; intros l m Hn Hm.
  - destruct l; [|simpl in Hn; lia]. destruct m; reflexivity.
  - destruct l as [|x l]; [destruct m; reflexivity|].
    destruct m as [|m]; [simpl in Hm; lia|].
    cbn [windows]. f_equal. apply IH.
    + rewrite length_skipn. cbn [length] in *. lia.
    + rewrite length_skipn. cbn [length] in *. lia.
Qed.

Lemma chunks_step k l :
  (0 < k)%nat -> l <> [] -> chunks k l = firstn k l :: chunks k (skipn k l).
Proof.
  intros Hk Hl. unfold chunks. destruct l as [|x l]; [congruence|].
  cbn [length windows]. f_equal. apply windows_fuel; trivial.
  rewrite length_skipn. cbn [length]. lia.
Qed.

Lemma chunks_app k q l :
  (0 < k)%nat -> length q = k -> chunks k (q ++ l) = q :: chunks k l.
Proof.
  intros Hk Hq. rewrite chunks_step; trivial.
  - rewrite firstn_app, skipn_app, Hq, Nat.sub_diag.
    rewrite <- Hq at 1 3. rewrite firstn_all, skipn_all. simpl.
    now rewrite app_nil_r.
  - destruct q; [simpl in Hq; lia|discriminate].
Qed.

Lemma chunks_concat k (Q : list (list A)) l :
  (0 < k)%nat -> Forall (fun q => length q = k) Q ->
  chunks k (concat Q ++ l) = Q ++ chunks k l.
Proof.
  intros Hk HQ. induction HQ as [|q Q Hq _ IH]; simpl; [reflexivity|].
  rewrite <- app_assoc, chunks_app, IH; trivial.
Qed.

Lemma chunks_short k l :
  l <> [] -> (length l <= k)%nat -> chunks k l = [l].
Proof.
  intros Hl Hk. rewrite chunks_step; trivial.
  - rewrite firstn_all2, skipn_all2; trivial.
  - destruct l; [congruence|simpl in Hk; lia].
Qed.

(** The loop [for i in range(0, len(l), k)] visits the windows. *)
Lemma range_up_windows {B} k l (g : list A -> B) fuel i :
  0 < k -> 0 <= i ->
  map (fun j => g (slice l j (j + k))) (range_up fuel i (len l) k)
  = map g (windows fuel (Z.to_nat k) (skipn (Z.to_nat i) l)).
Proof.
  intros Hk. revert i. induction fuel as [|fuel IH]; intros i Hi; [reflexivity|].
  cbn [range_up windows]. unfold len.
  destruct (i <? Z.of_nat (length l)) eqn:E.
  - apply Z.ltb_lt in E.
    destruct (skipn (Z.to_nat i) l) eqn:S.
    + apply (f_equal (@length A)) in S. rewrite length_skipn in S. simpl in S. lia.
    + rewrite <- S. cbn [map]. f_equal.
      * unfold slice. do 2 f_equal. lia.
      * fold (len l). rewrite IH by lia. rewrite skipn_skipn.
        do 3 f_equal. lia.
  - apply Z.ltb_ge in E. rewrite skipn_all2 by lia. reflexivity.
Qed.

Lemma range_chunks {B} k l (g : list A -> B) :
  0 < k ->
  map (fun j => g (slice l j (j + k))) (range 0 (len l) k)
  = map g (chunks (Z.to_nat k) l).
Proof.
  intros Hk. unfold range. replace (0 <? k) with true by (symmetry; now apply Z.ltb_lt).
  rewrite range_up_windows by lia. simpl. f_equal.
  apply windows_fuel; unfold len; lia.
Qed.

Lemma chunks_ind (k : nat) (Hk : (0 < k)%nat) (P : list A -> Prop) :
  P [] ->
  (forall l, l <> [] -> P (skipn k l) -> P l) ->
  forall l, P l.
Proof.
  intros H0 Hs l. remember (length l) as n eqn:Hn.
  revert l Hn. induction n as [n IH] using lt_wf_ind. intros l ->.
  destruct l as [|x l]; [exact H0|].
  apply Hs; [discriminate|]. eapply IH; [|reflexivity].
  rewrite length_skipn. cbn [length]. lia.
Qed.

Lemma concat_chunks k l : (0 < k)%nat -> concat (chunks k l) = l.
Proof.
  intros Hk. induction l as [|l Hl IH] using (chunks_ind k Hk); [reflexivity|].
  rewrite chunks_step by trivial. simpl. rewrite IH. apply firstn_skipn.
Qed.

Lemma chunks_bound k l :
  (0 < k)%nat -> Forall (fun w => (length w <= k)%nat) (chunks k l).
Proof.
  intros Hk. induction l as [|l Hl IH] using (chunks_ind k Hk); [constructor|].
  rewrite chunks_step by trivial. constructor; [|exact IH].
  rewrite length_firstn. lia.
Qed.

(** All windows but possibly the last are full. *)
Lemma chunks_full k l :
  (0 < k)%nat ->
  exists Q T, chunks k l = Q ++ match T with [] => [] | _ => [T] end /\ l = concat Q ++ T
              /\ Forall (fun q => length q = k) Q /\ (length T < k)%nat.
Proof.
  intros Hk. induction l as [|l Hl IH] using (chunks_ind k Hk).
  - exists [], []. repeat split; trivial.
  - destruct (Nat.lt_ge_cases (length l) k) as [Hlt|Hge].
    + exists [], l. rewrite chunks_short by (trivial; lia).
      destruct l; [congruence|]. repeat split; trivial.
    + destruct IH as [Q [T [E1 [E2 [HQ HT]]]]].
      exists (firstn k l :: Q), T. rewrite chunks_step, E1 by trivial.
      repeat split; trivial.
      * simpl. rewrite <- app_assoc, <- E2. symmetry. apply firstn_skipn.
      * constructor; trivial. rewrite length_firstn. lia.
Qed.

Lemma chunks_length k l :
  (0 < k)%nat -> len (chunks k l) = ceil_div (len l) (Z.of_nat k).
Proof.
  intros Hk. unfold ceil_div.
  induction l as [|l Hl IH] using (chunks_ind k Hk).
  - simpl. symmetry. apply Z.div_small. unfold len; simpl. lia.
  - rewrite chunks_step by trivial.
    change (len (firstn k l :: chunks k (skipn k l)))
      with (Z.of_nat (S (length (chunks k (skipn k l))))).
    rewrite Nat2Z.inj_succ. fold (len (chunks k (skipn k l))). rewrite IH.
    unfold len. rewrite length_skipn.
    destruct (Nat.le_gt_cases (length l) k) as [Hle|Hgt].
    + replace (length l - k)%nat with 0%nat by lia.
      rewrite (Z.div_small (Z.of_nat 0 + _ - 1)) by lia.
      apply Z.div_unique with (r := Z.of_nat (length l) - 1).
      * destruct l; [congruence|]. cbn [length] in *. lia.
      * lia.
    + rewrite Nat2Z.inj_sub by lia.
      replace (Z.of_nat (length l) + Z.of_nat k - 1)
        with (Z.of_nat (length l) - Z.of_nat k + Z.of_nat k - 1 + 1 * Z.of_nat k) by lia.
      rewrite Z.div_add by lia. lia.
Qed.

End ListFacts.

(** [ceil_div a b] is the ceiling of [a / b]. *)
Lemma ceil_div_spec a b q :
  0 < b -> (ceil_div a b = q <-> (q - 1) * b < a <= q * b).
Proof.
  intros Hb. unfold ceil_div. split.
  - intros <-. pose proof (Z.div_mod (a + b - 1) b ltac:(lia)).
    pose proof (Z.mod_pos_bound (a + b - 1) b Hb). nia.
  - intros [H1 H2]. symmetry.
    apply Z.div_unique with (r := a + b - 1 - b * q); lia.
Qed.

(** ** encoder.py: label splitting and message chunking *)
Section EncoderFacts.

Lemma join_nil_concat (parts : list str) : join [] parts = concat parts.
Proof.
  induction parts as [|p [|p' r] IH]; [reflexivity| |].
  - simpl. now rewrite app_nil_r.
  - change (join [] (p :: p' :: r)) with (p ++ [] ++ join [] (p' :: r)).
    rewrite IH. reflexivity.
Qed.

Lemma Z2Nat_pos_lt (k : Z) : 0 < k -> (0 < Z.to_nat k)%nat.
Proof. lia. Qed.

Lemma pad_chunk_length (cs : Z) (w : bytes) :
  0 < cs -> (length w <= Z.to_nat cs)%nat ->
  len (Encoder.pad_chunk cs w) = cs.
Proof.
  intros Hcs Hw. unfold Encoder.pad_chunk.
  destruct (len w <? cs) eqn:E.
  - rewrite len_app. unfold len in *. rewrite times_length.
    apply Z.ltb_lt in E. lia.
  - apply Z.ltb_ge in E. unfold len in *. lia.
Qed.

Lemma ceil_div_pos (a b : Z) : 0 < a -> 0 < b -> 1 <= ceil_div a b.
Proof.
  intros Ha Hb. destruct (ceil_div_spec a b (ceil_div a b) Hb) as [H _].
  specialize (H eq_refl). nia.
Qed.

Lemma ceil_div_0 (b : Z) : 0 < b -> ceil_div 0 b = 0.
Proof. intros Hb. apply ceil_div_spec; lia. Qed.

End EncoderFacts.

(** C8. For every text [t] and every [max_len > 0],
    [split_into_labels(t, max_len)] returns segments whose concatenation
    (join with no separator) is [t]; there are [ceil(len(t)/max_len)]
    of them when [t] is not empty and none when it is; and every segment
    has at most [max_len] characters. *)
Theorem split_join_inverse (t : str) (max_len : Z) :
  0 < max_len ->
  exists segs,
    Encoder.split_into_labels t max_len = Some segs
    /\ join [] segs = t
    /\ len segs = match t with [] => 0 | _ => ceil_div (len t) max_len end
    /\ Forall (fun s => len s <= max_len) segs.
Proof.
  intros Hk. pose proof (Z2Nat_pos_lt _ Hk) as Hk'.
  destruct t as [|c t]; [exists []; repeat split; constructor|].
  remember (c :: t) as s eqn:Hs.
  exists (chunks (Z.to_nat max_len) s).
  repeat split.
  - unfold Encoder.split_into_labels. rewrite Hs at 1.
    replace (max_len =? 0) with false by (symmetry; apply Z.eqb_neq; lia).
    f_equal. rewrite (range_chunks max_len s (fun w => w) Hk). apply map_id.
  - rewrite join_nil_concat. now apply concat_chunks.
  - rewrite chunks_length by trivial. now rewrite Z2Nat.id by lia.
  - eapply Forall_impl; [|apply (chunks_bound _ s Hk')].
    intros w Hw. cbv beta in Hw. unfold len. lia.
Qed.

Lemma split_join_inverse_witness :
  exists segs,
    Encoder.split_into_labels (lit "abcdefghij") 3 = Some segs
    /\ join [] segs = lit "abcdefghij"
    /\ len segs = ceil_div (len (lit "abcdefghij")) 3
    /\ Forall (fun s => len s <= 3) segs.
Proof. apply (split_join_inverse (lit "abcdefghij") 3). reflexivity. Defined.

(** C4. For every message [m] and every [chunk_size > 0],
    [chunk_message(m, chunk_size)] returns exactly
    [max(1, ceil(len(m)/chunk_size))] chunks, each of exactly
    [chunk_size] bytes; for the empty message the single chunk is made
    of filler bytes ['_'] only. *)
Theorem chunk_count_invariant (m : bytes) (chunk_size : Z) :
  0 < chunk_size ->
  exists cs,
    Encoder.chunk_message m chunk_size = Some cs
    /\ len cs = Z.max 1 (ceil_div (len m) chunk_size)
    /\ Forall (fun c => len c = chunk_size) cs
    /\ (m = [] -> cs = [repeat "_"%byte (Z.to_nat chunk_size)]).
Proof.
  intros Hk. pose proof (Z2Nat_pos_lt _ Hk) as Hk'.
  unfold Encoder.chunk_message.
  replace (chunk_size =? 0) with false by (symmetry; apply Z.eqb_neq; lia).
  rewrite (range_chunks chunk_size m (Encoder.pad_chunk chunk_size) Hk).
  destruct m as [|b m].
  - exists [times Encoder.filler chunk_size]. cbn [chunks windows length map].
    repeat split.
    + rewrite ceil_div_0 by trivial. reflexivity.
    + constructor; [|constructor]. unfold len. rewrite times_length. lia.
  - remember (b :: m) as s eqn:Hs.
    exists (map (Encoder.pad_chunk chunk_size) (chunks (Z.to_nat chunk_size) s)).
    assert (Hlen : len (chunks (Z.to_nat chunk_size) s) = ceil_div (len s) chunk_size).
    { rewrite chunks_length by trivial. now rewrite Z2Nat.id by lia. }
    assert (Hpos : 1 <= ceil_div (len s) chunk_size).
    { apply ceil_div_pos; trivial. subst s. unfold len. cbn [length]. lia. }
    repeat split.
    + destruct (chunks (Z.to_nat chunk_size) s); [|reflexivity].
      change (len (@nil (list byte))) with 0 in Hlen. lia.
    + unfold len in *. rewrite length_map. lia.
    + apply Forall_map. eapply Forall_impl; [|apply (chunks_bound _ s Hk')].
      intros w Hw. now apply pad_chunk_length.
    + subst s. discriminate.
Qed.

Lemma chunk_count_invariant_witness :
  exists cs,
    Encoder.chunk_message (blit "hello world") 4 = Some cs
    /\ len cs = Z.max 1 (ceil_div (len (blit "hello world")) 4)
    /\ Forall (fun c => len c = 4) cs
    /\ (blit "hello world" = [] -> cs = [repeat "_"%byte (Z.to_nat 4)]).
Proof. apply (chunk_count_invariant (blit "hello world") 4). reflexivity. Defined.

(** ** Base32: bit arithmetic of one quantum *)
Section Base32Arith.
Import Base32.

Lemma land_31 a : Z.land a 31 = a mod 32.
Proof. change 31 with (Z.ones 5). now rewrite Z.land_ones by lia. Qed.

Lemma land_1023 a : Z.land a 1023 = a mod 1024.
Proof. change 1023 with (Z.ones 10). now rewrite Z.land_ones by lia. Qed.

Lemma land_255 a : Z.land a 255 = a mod 256.
Proof. change 255 with (Z.ones 8). now rewrite Z.land_ones by lia. Qed.

Lemma byte_val_range b : 0 <= byte_val b < 256.
Proof.
  unfold byte_val. pose proof (Byte.to_N_bounded b). lia.
Qed.

Lemma byte_of_val b : Byte.of_N (Z.to_N (byte_val b)) = Some b.
Proof. unfold byte_val. rewrite N2Z.id. apply Byte.of_to_N. Qed.

Lemma byte_of_small v :
  0 <= v < 256 -> exists b, Byte.of_N (Z.to_N v) = Some b /\ byte_val b = v.
Proof.
  intros Hv. destruct (Byte.of_N (Z.to_N v)) as [b|] eqn:E.
  - exists b. split; [reflexivity|]. apply Byte.to_of_N in E.
    unfold byte_val. rewrite E. lia.
  - apply Byte.of_N_None_iff in E. lia.
Qed.

End Base32Arith.

Ltac bits_to_arith :=
  rewrite ?land_31, ?land_1023, ?land_255;
  rewrite ?Z.shiftr_div_pow2, ?Z.shiftl_mul_pow2 by lia;
  repeat match goal with
         | |- context [2 ^ ?n] =>
             let v := eval vm_compute in (2 ^ n) in change (2 ^ n) with v
         end.

Section Base32Quantum.
Import Base32.

Lemma quantum_digits_range c :
  0 <= c < 2 ^ 40 -> Forall (fun d => 0 <= d < 32) (quantum_digits c).
Proof.
  intros Hc. change (2 ^ 40) with 1099511627776 in Hc.
  unfold quantum_digits.
  repeat constructor; bits_to_arith; Z.to_euclidean_division_equations; lia.
Qed.

Lemma fold_digits_quantum c k :
  0 <= c < 2 ^ 40 -> In k [2; 4; 5; 7; 8]%nat ->
  fold_digits (firstn k (quantum_digits c)) 0
  = Z.shiftr c (5 * Z.of_nat (8 - k)).
Proof.
  intros Hc Hk. change (2 ^ 40) with 1099511627776 in Hc.
  simpl in Hk.
  destruct Hk as [<-|[<-|[<-|[<-|[<-|[]]]]]];
    cbn [firstn quantum_digits fold_digits fold_left Nat.sub Z.of_nat
         Pos.of_succ_nat Pos.succ Z.mul Pos.mul Pos.add];
    bits_to_arith; Z.to_euclidean_division_equations; lia.
Qed.

End Base32Quantum.

(** ** Base32: the alphabet *)
Section Base32Alphabet.
Import Base32.

Lemma below_32 (P : Z -> Prop) :
  Forall P (map Z.of_nat (seq 0 32)) -> forall d, 0 <= d < 32 -> P d.
Proof.
  intros H d Hd. rewrite Forall_forall in H. apply H.
  apply in_map_iff. exists (Z.to_nat d). split; [lia|].
  apply in_seq. lia.
Qed.

Lemma tab_ok_all d : 0 <= d < 32 -> tab_ok d = true.
Proof.
  apply (below_32 (fun d => tab_ok d = true)).
  apply Forall_forall. apply forallb_forall. vm_compute. reflexivity.
Qed.

Lemma b32rev_tab d : 0 <= d < 32 -> b32rev (b32tab d) = Some d.
Proof.
  intros Hd. pose proof (tab_ok_all d Hd) as H. unfold tab_ok in H.
  repeat (apply andb_prop in H; destruct H as [H ?]).
  destruct (b32rev (b32tab d)); [|discriminate].
  apply Z.eqb_eq in H. now subst.
Qed.

Lemma tab_not_pad d : 0 <= d < 32 -> is_char "="%char (b32tab d) = false.
Proof.
  intros Hd. pose proof (tab_ok_all d Hd) as H. unfold tab_ok in H.
  repeat (apply andb_prop in H; destruct H as [H ?]).
  unfold is_char. rewrite Ascii.eqb_sym. now apply negb_true_iff.
Qed.

Lemma tab_lower_not_dot d :
  0 <= d < 32 -> Ascii.eqb (lower_char (b32tab d)) "."%char = false.
Proof.
  intros Hd. pose proof (tab_ok_all d Hd) as H. unfold tab_ok in H.
  repeat (apply andb_prop in H; destruct H as [H ?]).
  now apply negb_true_iff.
Qed.

Lemma tab_upper_lower d :
  0 <= d < 32 -> upper_char (lower_char (b32tab d)) = b32tab d.
Proof.
  intros Hd. pose proof (tab_ok_all d Hd) as H. unfold tab_ok in H.
  repeat (apply andb_prop in H; destruct H as [H ?]).
  now apply Ascii.eqb_eq.
Qed.

Lemma decode_acc_tab ds a :
  Forall (fun d => 0 <= d < 32) ds ->
  decode_acc (map b32tab ds) a = Some (fold_digits ds a).
Proof.
  intros H. revert a. induction H as [|d ds Hd _ IH]; intros a; [reflexivity|].
  cbn [map decode_acc]. rewrite b32rev_tab by trivial. apply IH.
Qed.

Lemma rstrip_tab ds :
  Forall (fun d => 0 <= d < 32) ds ->
  rstrip (is_char "="%char) (map b32tab ds) = map b32tab ds.
Proof.
  induction 1 as [|d ds Hd _ IH]; [reflexivity|].
  cbn [map rstrip]. rewrite IH.
  destruct (map b32tab ds); [|reflexivity]. now rewrite tab_not_pad.
Qed.

Lemma remove_dot_lower_tab ds :
  Forall (fun d => 0 <= d < 32) ds ->
  remove_char "."%char (lower (map b32tab ds)) = lower (map b32tab ds).
Proof.
  induction 1 as [|d ds Hd _ IH]; [reflexivity|].
  unfold remove_char, lower in *. cbn [map filter].
  rewrite tab_lower_not_dot by trivial. cbn [negb]. now rewrite IH.
Qed.

Lemma upper_lower_tab ds :
  Forall (fun d => 0 <= d < 32) ds ->
  upper (lower (map b32tab ds)) = map b32tab ds.
Proof.
  induction 1 as [|d ds Hd _ IH]; [reflexivity|].
  unfold upper, lower in *. cbn [map].
  rewrite tab_upper_lower by trivial. now rewrite IH.
Qed.

End Base32Alphabet.

(** ** Base32: bytes of one quantum *)
Section Base32Bytes.
Import Base32.

Lemma from_bytes_5 b0 b1 b2 b3 b4 :
  from_bytes [b0; b1; b2; b3; b4]
  = (((byte_val b0 * 256 + byte_val b1) * 256 + byte_val b2) * 256
     + byte_val b3) * 256 + byte_val b4.
Proof. reflexivity. Qed.

Lemma from_bytes_range q :
  length q = 5%nat -> 0 <= from_bytes q < 2 ^ 40.
Proof.
  destruct q as [|b0 [|b1 [|b2 [|b3 [|b4 [|]]]]]]; try discriminate.
  intros _. rewrite from_bytes_5. change (2 ^ 40) with 1099511627776.
  pose proof (byte_val_range b0). pose proof (byte_val_range b1).
  pose proof (byte_val_range b2). pose proof (byte_val_range b3).
  pose proof (byte_val_range b4). lia.
Qed.

Lemma to_bytes5_from_bytes q :
  length q = 5%nat -> to_bytes5 (from_bytes q) = Some q.
Proof.
  intros Hq. pose proof (from_bytes_range q Hq) as Hc.
  unfold to_bytes5.
  replace ((0 <=? from_bytes q) && (from_bytes q <? 2 ^ 40)) with true
    by (symmetry; apply andb_true_iff; split; [apply Z.leb_le|apply Z.ltb_lt]; lia).
  destruct q as [|b0 [|b1 [|b2 [|b3 [|b4 [|]]]]]]; try discriminate.
  rewrite from_bytes_5 in *.
  pose proof (byte_val_range b0). pose proof (byte_val_range b1).
  pose proof (byte_val_range b2). pose proof (byte_val_range b3).
  pose proof (byte_val_range b4).
  set (c := (((byte_val b0 * 256 + byte_val b1) * 256 + byte_val b2) * 256
             + byte_val b3) * 256 + byte_val b4) in *.
  replace (Z.land (Z.shiftr c 32) 255) with (byte_val b0)
    by (bits_to_arith; subst c; Z.to_euclidean_division_equations; lia).
  replace (Z.land (Z.shiftr c 24) 255) with (byte_val b1)
    by (bits_to_arith; subst c; Z.to_euclidean_division_equations; lia).
  replace (Z.land (Z.shiftr c 16) 255) with (byte_val b2)
    by (bits_to_arith; subst c; Z.to_euclidean_division_equations; lia).
  replace (Z.land (Z.shiftr c 8) 255) with (byte_val b3)
    by (bits_to_arith; subst c; Z.to_euclidean_division_equations; lia).
  replace (Z.land c 255) with (byte_val b4)
    by (bits_to_arith; subst c; Z.to_euclidean_division_equations; lia).
  now rewrite !byte_of_val.
Qed.

Lemma to_bytes5_total v :
  0 <= v < 2 ^ 40 -> exists bs, to_bytes5 v = Some bs /\ length bs = 5%nat.
Proof.
  intros Hv. unfold to_bytes5.
  replace ((0 <=? v) && (v <? 2 ^ 40)) with true
    by (symmetry; apply andb_true_iff; split; [apply Z.leb_le|apply Z.ltb_lt]; lia).
  assert (Hb : forall x, exists b, Byte.of_N (Z.to_N (Z.land x 255)) = Some b).
  { intros x. destruct (byte_of_small (Z.land x 255)) as [b [E _]].
    - rewrite land_255. apply Z.mod_pos_bound. lia.
    - now exists b. }
  destruct (Hb (Z.shiftr v 32)) as [b0 ->], (Hb (Z.shiftr v 24)) as [b1 ->],
    (Hb (Z.shiftr v 16)) as [b2 ->], (Hb (Z.shiftr v 8)) as [b3 ->],
    (Hb v) as [b4 ->].
  eexists. split; reflexivity.
Qed.

End Base32Bytes.

(** ** Base32: the encoder, quantum by quantum *)
Section Base32Encode.
Import Base32.

Lemma concat_length_const {A} (k : nat) (Q : list (list A)) :
  Forall (fun q => length q = k) Q -> length (concat Q) = (k * length Q)%nat.
Proof.
  induction 1 as [|q Q Hq _ IH]; [simpl; lia|].
  cbn [concat length]. rewrite length_app, IH, Hq. lia.
Qed.

Lemma Forall_firstn {A} (P : A -> Prop) (n : nat) (l : list A) :
  Forall P l -> Forall P (firstn n l).
Proof.
  intros H. revert n. induction H as [|x l Hx _ IH]; intros [|n]; simpl;
    constructor; auto.
Qed.

Lemma encode_quantum_digits q :
  encode_quantum q = map b32tab (quantum_digits (from_bytes q)).
Proof. reflexivity. Qed.

Lemma encode_quantum_length q : length (encode_quantum q) = 8%nat.
Proof. reflexivity. Qed.

Lemma tail_quantum_length T :
  (length T < 5)%nat -> length (tail_quantum T) = 5%nat.
Proof.
  intros H. unfold tail_quantum, len. rewrite length_app, times_length. lia.
Qed.

Lemma drop_last_app {A} (n : nat) (X Y : list A) :
  (n <= length Y)%nat -> drop_last n (X ++ Y) = X ++ drop_last n Y.
Proof.
  intros H. unfold drop_last. rewrite firstn_app, length_app.
  rewrite firstn_all2 by lia. do 2 f_equal. lia.
Qed.

Lemma b32encode_decomp Q T :
  Forall (fun q => length q = 5%nat) Q -> (length T < 5)%nat ->
  b32encode (concat Q ++ T)
  = concat (map encode_quantum Q)
    ++ tail_chars T ++ repeat "="%char (npad (length T)).
Proof.
  intros HQ HT. unfold b32encode.
  assert (Hmod : len (concat Q ++ T) mod 5 = len T).
  { rewrite len_app. unfold len. rewrite (concat_length_const 5) by trivial.
    rewrite Nat2Z.inj_mul, Z.add_comm, Z.mul_comm.
    rewrite Z.mod_add by lia. apply Z.mod_small. simpl Z.of_nat. lia. }
  rewrite Hmod. cbv zeta.
  destruct (len T =? 0) eqn:E0.
  - apply Z.eqb_eq in E0. destruct T; [|unfold len in E0; simpl in E0; lia].
    rewrite (range_chunks 5 _ encode_quantum) by lia.
    rewrite chunks_concat by (trivial; lia).
    cbn. rewrite !app_nil_r. reflexivity.
  - rewrite <- app_assoc. fold (tail_quantum T).
    rewrite (range_chunks 5 _ encode_quantum) by lia.
    rewrite chunks_concat by (trivial; lia).
    rewrite chunks_short.
    2:{ pose proof (tail_quantum_length T HT). destruct (tail_quantum T); [discriminate|discriminate]. }
    2:{ rewrite tail_quantum_length by trivial. simpl. lia. }
    rewrite map_app, concat_app. cbn [map concat]. rewrite app_nil_r.
    unfold set_tail_pad.
    destruct T as [|b0 [|b1 [|b2 [|b3 [|b4 T]]]]];
      try (simpl in HT; lia); try discriminate;
      cbn [len length Z.of_nat Pos.of_succ_nat Pos.succ Z.eqb Pos.eqb];
      rewrite drop_last_app by (rewrite encode_quantum_length; lia);
      rewrite <- app_assoc; reflexivity.
Qed.

Lemma tail_chars_digits T :
  (length T < 5)%nat ->
  exists ds, tail_chars T = map b32tab ds
             /\ Forall (fun d => 0 <= d < 32) ds
             /\ length ds = match T with
                            | [] => 0 | _ => 8 - npad (length T) end%nat.
Proof.
  intros HT. destruct T as [|b T]; [exists []; repeat split; constructor|].
  remember (b :: T) as T' eqn:ET.
  exists (firstn (8 - npad (length T')) (quantum_digits (from_bytes (tail_quantum T')))).
  repeat split.
  - unfold tail_chars. rewrite ET at 1. rewrite encode_quantum_digits. apply firstn_map.
  - apply Forall_firstn, quantum_digits_range, from_bytes_range.
    now apply tail_quantum_length.
  - rewrite length_firstn.
    change (length (quantum_digits _)) with 8%nat.
    subst T'. cbv iota. apply Nat.min_l. lia.
Qed.

Lemma quanta_digits Q :
  Forall (fun q => length q = 5%nat) Q ->
  exists ds, concat (map encode_quantum Q) = map b32tab ds
             /\ Forall (fun d => 0 <= d < 32) ds.
Proof.
  induction 1 as [|q Q Hq _ [ds [E H]]]; [exists []; split; [reflexivity|constructor]|].
  exists (quantum_digits (from_bytes q) ++ ds). split.
  - cbn [map concat]. now rewrite E, encode_quantum_digits, map_app.
  - apply Forall_app. split; [|exact H].
    now apply quantum_digits_range, from_bytes_range.
Qed.

End Base32Encode.

(** ** Base32: the decoder, quantum by quantum *)
Section Base32Decode.
Import Base32.

Lemma decode_loop_ws s idxs d a :
  decode_loop s idxs d a
  = decode_ws (map (fun i => slice s i (i + 8)) idxs) d a.
Proof.
  revert d a. induction idxs as [|i idxs IH]; intros d a; [reflexivity|].
  cbn [decode_loop map decode_ws].
  destruct (decode_acc (slice s i (i + 8)) 0) as [a'|]; [|reflexivity].
  destruct (to_bytes5 a'); [apply IH|reflexivity].
Qed.

Lemma decode_acc_quantum q :
  length q = 5%nat -> decode_acc (encode_quantum q) 0 = Some (from_bytes q).
Proof.
  intros Hq. pose proof (from_bytes_range q Hq) as Hc.
  rewrite encode_quantum_digits, decode_acc_tab
    by now apply quantum_digits_range.
  f_equal.
  change (quantum_digits (from_bytes q))
    with (firstn 8 (quantum_digits (from_bytes q))).
  rewrite fold_digits_quantum by (trivial; simpl; tauto).
  apply Z.shiftr_0_r.
Qed.

Lemma decode_ws_quanta Q W d a :
  Forall (fun q => length q = 5%nat) Q ->
  exists a', decode_ws (map encode_quantum Q ++ W) d a
             = decode_ws W (d ++ concat Q) a'.
Proof.
  intros HQ. revert d a. induction HQ as [|q Q Hq _ IH]; intros d a.
  - exists a. cbn. now rewrite app_nil_r.
  - cbn [map app decode_ws concat].
    rewrite decode_acc_quantum, to_bytes5_from_bytes by trivial.
    destruct (IH (d ++ q) (from_bytes q)) as [a' E].
    exists a'. now rewrite E, <- app_assoc.
Qed.

(** The last, partial quantum: its characters decode to the top bits
    of the zero-filled group, whose low bits are zero. *)
Lemma decode_acc_tail T :
  T <> [] -> (length T < 5)%nat ->
  let c := from_bytes (tail_quantum T) in
  let p := Z.of_nat (npad (length T)) in
  decode_acc (tail_chars T) 0 = Some (Z.shiftr c (5 * p))
  /\ Z.shiftl (Z.shiftr c (5 * p)) (5 * p) = c
  /\ 0 <= Z.shiftr c (5 * p) < 2 ^ 40.
Proof.
  intros HT Hlen c p.
  pose proof (from_bytes_range (tail_quantum T) (tail_quantum_length T Hlen)) as Hc.
  fold c in Hc.
  assert (Hk : In (8 - npad (length T))%nat [2; 4; 5; 7; 8]%nat).
  { destruct T as [|b0 [|b1 [|b2 [|b3 [|b4 T]]]]];
      try congruence; try (simpl in Hlen; lia); simpl; tauto. }
  assert (Hp : p = Z.of_nat (8 - (8 - npad (length T)))).
  { destruct T as [|b0 [|b1 [|b2 [|b3 [|b4 T]]]]];
      try congruence; try (simpl in Hlen; lia); reflexivity. }
  split; [|split].
  - unfold tail_chars. destruct T as [|b T]; [congruence|].
    remember (b :: T) as T'.
    rewrite encode_quantum_digits.
    rewrite firstn_map, decode_acc_tab
      by (apply Forall_firstn; now apply quantum_digits_range).
    fold c. rewrite fold_digits_quantum by trivial. now rewrite Hp.
  - subst c.
    destruct T as [|b0 [|b1 [|b2 [|b3 [|b4 T]]]]];
      try congruence; try (simpl in Hlen; lia); subst p;
      cbn [length npad Z.of_nat Pos.of_succ_nat Pos.succ Z.mul Pos.mul Pos.add];
      change (from_bytes (tail_quantum ?l)) with (from_bytes (l ++ repeat x00 (5 - length l)));
      cbn [length Nat.sub repeat app]; rewrite from_bytes_5;
      change (byte_val x00) with 0;
      repeat match goal with
             | |- context [byte_val ?b] =>
                 lazymatch goal with
                 | _ : 0 <= byte_val b < 256 |- _ => fail
                 | _ => pose proof (byte_val_range b)
                 end
             end;
      bits_to_arith; Z.to_euclidean_division_equations; lia.
  - change (2 ^ 40) with 1099511627776 in *.
    rewrite Z.shiftr_div_pow2 by lia.
    assert (0 < 2 ^ (5 * p)) by (apply Z.pow_pos_nonneg; lia).
    split; [apply Z.div_pos; lia|].
    apply Z.div_lt_upper_bound; nia.
Qed.

End Base32Decode.

Section Base32RoundTrip.
Import Base32.

Lemma quanta_length Q :
  length (concat (map encode_quantum Q)) = (8 * length Q)%nat.
Proof.
  rewrite (concat_length_const 8), length_map; [reflexivity|].
  apply Forall_map, Forall_forall. intros q _. apply encode_quantum_length.
Qed.

Lemma npad_cases (T : list byte) :
  T <> [] -> (length T < 5)%nat ->
  (length T = 1 /\ npad (length T) = 6
   \/ length T = 2 /\ npad (length T) = 4
   \/ length T = 3 /\ npad (length T) = 3
   \/ length T = 4 /\ npad (length T) = 1)%nat.
Proof.
  intros HT Hlen.
  destruct T as [|b0 [|b1 [|b2 [|b3 [|b4 T]]]]];
    try congruence; try (simpl in Hlen; lia); simpl; tauto.
Qed.

(** The encoded text, as [decode_labels] hands it to [b32decode]. *)
Lemma b32decode_decomp Q T :
  Forall (fun q => length q = 5%nat) Q -> (length T < 5)%nat ->
  b32decode ((concat (map encode_quantum Q) ++ tail_chars T)
             ++ repeat "="%char (npad (length T)))
  = Some (concat Q ++ T).
Proof.
  intros HQ Hlen.
  destruct (quanta_digits Q HQ) as [d1 [E1 H1]].
  destruct (tail_chars_digits T Hlen) as [d2 [E2 [H2 L2]]].
  assert (EX : concat (map encode_quantum Q) ++ tail_chars T
               = map b32tab (d1 ++ d2)) by now rewrite map_app, E1, E2.
  assert (HX : Forall (fun d => 0 <= d < 32) (d1 ++ d2))
    by (apply Forall_app; now split).
  assert (ER : rstrip (is_char "="%char)
                 ((concat (map encode_quantum Q) ++ tail_chars T)
                  ++ repeat "="%char (npad (length T)))
               = concat (map encode_quantum Q) ++ tail_chars T)
    by (rewrite EX, rstrip_app_repeat, rstrip_tab; trivial).
  assert (Ltc : length (tail_chars T)
                = match T with [] => 0 | _ => 8 - npad (length T) end%nat)
    by now rewrite E2, length_map.
  assert (Hpc : len ((concat (map encode_quantum Q) ++ tail_chars T)
                     ++ repeat "="%char (npad (length T)))
                - len (concat (map encode_quantum Q) ++ tail_chars T)
                = Z.of_nat (npad (length T)))
    by (rewrite len_app; unfold len; rewrite repeat_length; lia).
  assert (Hmod : len ((concat (map encode_quantum Q) ++ tail_chars T)
                      ++ repeat "="%char (npad (length T))) mod 8 = 0).
  { rewrite !len_app. unfold len.
    rewrite quanta_length, repeat_length, Ltc, Nat2Z.inj_mul.
    rewrite <- Z.add_assoc, Z.add_comm, Z.mul_comm, Z.mod_add by lia.
    destruct T as [|b0 [|b1 [|b2 [|b3 [|b4 T]]]]];
      try (simpl in Hlen; lia); reflexivity. }
  unfold b32decode. rewrite ER, Hmod, Hpc. cbn [Z.eqb negb].
  rewrite decode_loop_ws, (range_chunks 8 _ (fun w => w)), map_id by lia.
  rewrite chunks_concat
    by (try (simpl; lia); apply Forall_map, Forall_forall;
        intros q _; apply encode_quantum_length).
  destruct (decode_ws_quanta Q (chunks (Z.to_nat 8) (tail_chars T)) [] 0 HQ)
    as [a' Ea]. rewrite Ea. cbn [app]. clear Ea.
  destruct T as [|b T].
  - cbn. now rewrite app_nil_r.
  - remember (b :: T) as T' eqn:ET.
    assert (HT : T' <> []) by (subst; discriminate).
    assert (Ltc' : length (tail_chars T') = (8 - npad (length T'))%nat)
      by (rewrite Ltc; subst T'; reflexivity).
    destruct (decode_acc_tail T' HT Hlen) as [Dacc [Hsh Hrange]].
    destruct (to_bytes5_total _ Hrange) as [junk [Ej Lj]].
    pose proof (npad_cases T' HT Hlen) as Hcases.
    rewrite chunks_short;
      [|intros E; rewrite E in Ltc'; cbn [length] in Ltc';
        destruct Hcases as [[_ N]|[[_ N]|[[_ N]|[_ N]]]];
        rewrite N in Ltc'; discriminate
       |rewrite Ltc'; change (Z.to_nat 8) with 8%nat; lia].
    cbn [decode_ws]. rewrite Dacc, Ej.
    assert (Hex : existsb (Z.eqb (Z.of_nat (npad (length T')))) [0; 1; 3; 4; 6]
                  = true)
      by (destruct Hcases as [[_ N]|[[_ N]|[[_ N]|[_ N]]]]; rewrite N; reflexivity).
    assert (Hnz : (Z.of_nat (npad (length T')) =? 0) = false)
      by (apply Z.eqb_neq; lia).
    assert (Hlo : Z.to_nat ((43 - 5 * Z.of_nat (npad (length T'))) / 8)
                  = length T')
      by (destruct Hcases as [[R N]|[[R N]|[[R N]|[R N]]]]; rewrite N, R; reflexivity).
    rewrite Hex, Hnz. cbn [negb andb].
    replace (Nat.eqb (length (concat Q ++ junk)) 0) with false
      by (symmetry; apply Nat.eqb_neq; rewrite length_app; lia).
    cbn [negb].
    rewrite Hsh, to_bytes5_from_bytes by now apply tail_quantum_length.
    rewrite drop_last_app by lia.
    unfold drop_last at 1. rewrite Lj. cbn [Nat.sub firstn].
    unfold slice. rewrite Hlo. cbn [Z.to_nat skipn]. rewrite Nat.sub_0_r.
    unfold tail_quantum. rewrite firstn_app, Nat.sub_diag, firstn_all.
    cbn [firstn]. now rewrite !app_nil_r.
Qed.

End Base32RoundTrip.

(** ** The chunk codec *)
Section ChunkCodec.
Import Base32.

Lemma decode_encode_decomp Q T :
  Forall (fun q => length q = 5%nat) Q -> (length T < 5)%nat ->
  Decoder.decode_labels (Encoder.encode_chunk (concat Q ++ T))
  = Some (concat Q ++ T).
Proof.
  intros HQ Hlen.
  destruct (quanta_digits Q HQ) as [d1 [E1 H1]].
  destruct (tail_chars_digits T Hlen) as [d2 [E2 [H2 L2]]].
  assert (EX : concat (map encode_quantum Q) ++ tail_chars T
               = map b32tab (d1 ++ d2)) by now rewrite map_app, E1, E2.
  assert (HX : Forall (fun d => 0 <= d < 32) (d1 ++ d2))
    by (apply Forall_app; now split).
  unfold Encoder.encode_chunk.
  rewrite b32encode_decomp, app_assoc, EX by trivial.
  rewrite rstrip_app_repeat, rstrip_tab by trivial.
  unfold Decoder.decode_labels.
  rewrite remove_dot_lower_tab, upper_lower_tab by trivial.
  assert (Hpad : (8 - len (map b32tab (d1 ++ d2)) mod 8) mod 8
                 = Z.of_nat (npad (length T))).
  { rewrite <- EX, len_app. unfold len.
    rewrite quanta_length, E2, length_map, L2, Nat2Z.inj_mul.
    rewrite Z.add_comm, Z.mul_comm, Z.mod_add by lia.
    destruct T as [|b0 [|b1 [|b2 [|b3 [|b4 T]]]]];
      try (simpl in Hlen; lia); reflexivity. }
  rewrite Hpad. unfold times. rewrite Nat2Z.id, <- EX.
  now apply b32decode_decomp.
Qed.

Lemma decode_labels_encode_chunk (b : list byte) :
  Decoder.decode_labels (Encoder.encode_chunk b) = Some b.
Proof.
  destruct (chunks_full 5 b) as [Q [T [_ [-> [HQ HT]]]]]; [lia|].
  now apply decode_encode_decomp.
Qed.

Lemma join_decoded_encoded (cs : list (list byte)) :
  Decoder.join_decoded (map Encoder.encode_chunk cs) = Some (concat cs).
Proof.
  induction cs as [|c cs IH]; [reflexivity|].
  cbn [map Decoder.join_decoded concat].
  now rewrite decode_labels_encode_chunk, IH.
Qed.

(** The chunks of a message, concatenated, are the message followed
    by filler bytes. *)
Lemma concat_padded_chunks (m : list byte) (k : Z) :
  0 < k ->
  exists j, concat (map (Encoder.pad_chunk k) (chunks (Z.to_nat k) m))
            = m ++ repeat Encoder.filler j.
Proof.
  intros Hk.
  destruct (chunks_full (Z.to_nat k) m) as [Q [T [E [Em [HQ HT]]]]]; [lia|].
  rewrite E, map_app, concat_app.
  assert (EQ : map (Encoder.pad_chunk k) Q = Q).
  { clear E Em. induction HQ as [|q Q Hq _ IH]; [reflexivity|].
    cbn [map]. rewrite IH. f_equal. unfold Encoder.pad_chunk.
    replace (len q <? k) with false; [reflexivity|].
    symmetry. apply Z.ltb_ge. unfold len. lia. }
  rewrite EQ. destruct T as [|b T].
  - exists 0%nat. cbn [map concat repeat]. rewrite app_nil_r in *.
    now rewrite app_nil_r, Em.
  - remember (b :: T) as T'. cbn [map concat].
    exists (Z.to_nat (k - len T')). rewrite Em, <- app_assoc. f_equal.
    unfold Encoder.pad_chunk.
    replace (len T' <? k) with true
      by (symmetry; apply Z.ltb_lt; unfold len; lia).
    now rewrite app_nil_r.
Qed.

Lemma pipeline_result (m : list byte) (k : Z) :
  0 < k -> m <> [] ->
  exists cs, Encoder.chunk_message m k = Some cs
             /\ Decoder.decode_payload_chunks (map Encoder.encode_chunk cs)
                = Some (Decoder.strip_padding m (blit "_")).
Proof.
  intros Hk Hm. unfold Encoder.chunk_message.
  replace (k =? 0) with false by (symmetry; apply Z.eqb_neq; lia).
  rewrite (range_chunks k m (Encoder.pad_chunk k) Hk).
  exists (map (Encoder.pad_chunk k) (chunks (Z.to_nat k) m)). split.
  - destruct (chunks (Z.to_nat k) m) eqn:E; [|reflexivity].
    apply (f_equal (@concat _)) in E. rewrite concat_chunks in E by lia.
    now subst.
  - unfold Decoder.decode_payload_chunks. rewrite join_decoded_encoded.
    destruct (concat_padded_chunks m k Hk) as [j ->].
    unfold Decoder.strip_padding. rewrite rstrip_app_repeat; [reflexivity|].
    reflexivity.
Qed.

Lemma forallb_filler (t : list byte) :
  forallb (in_bytes (blit "_")) t = true ->
  t = repeat Encoder.filler (length t).
Proof.
  induction t as [|x t IH]; [reflexivity|]. cbn [forallb length repeat].
  intros H. apply andb_prop in H. destruct H as [Hx Ht].
  unfold in_bytes in Hx.
  change (blit "_") with [Encoder.filler] in Hx. cbn [existsb] in Hx.
  rewrite orb_false_r in Hx. apply Byte.byte_dec_bl in Hx.
  now rewrite Hx, <- IH.
Qed.

End ChunkCodec.

(** C1. Round trip of the chunk codec: for every byte string [b], of
    any length, [decode_labels(encode_chunk(b))] returns [b] (and does
    not raise). *)
Theorem base32_round_trip (b : bytes) :
  Decoder.decode_labels (Encoder.encode_chunk b) = Some b.
Proof. apply decode_labels_encode_chunk. Qed.

(** C7. For every non-empty message [m] whose last byte is ['_'] and
    every [chunk_size > 0], the pipeline [chunk_message], [encode_chunk]
    on each chunk, [decode_payload_chunks] (decode, concatenate,
    [strip_padding]) returns [m] without its whole trailing run of ['_']
    bytes, which is not [m]. *)
Theorem trailing_filler_ambiguity (m : bytes) (chunk_size : Z) :
  0 < chunk_size -> m <> [] -> last m x00 = "_"%byte ->
  exists cs r k,
    Encoder.chunk_message m chunk_size = Some cs
    /\ Decoder.decode_payload_chunks (map Encoder.encode_chunk cs) = Some r
    /\ (0 < k)%nat /\ m = r ++ repeat "_"%byte k
    /\ (forall r', r <> r' ++ ["_"%byte])
    /\ r <> m.
Proof.
  intros Hk Hm Hlast.
  destruct (pipeline_result m chunk_size Hk Hm) as [cs [E1 E2]].
  set (f := in_bytes (blit "_")).
  assert (Hne : forall r', rstrip f m <> r' ++ ["_"%byte]).
  { intros r' E.
    assert (N : rstrip f m <> []) by (rewrite E; now destruct r').
    pose proof (rstrip_last f m x00 N) as L.
    rewrite E, last_last in L. discriminate. }
  assert (Hneq : rstrip f m <> m).
  { intros E. destruct (@exists_last _ m Hm) as [m' [x Em]].
    rewrite Em, last_last in Hlast. subst x. apply (Hne m'). now rewrite E. }
  destruct (rstrip_prefix f m) as [t [Et Ht]].
  exists cs, (rstrip f m), (length t). repeat split; trivial.
  - destruct t; [|simpl; lia]. rewrite app_nil_r in Et. now symmetry in Et.
  - rewrite Et at 1. f_equal. now apply forallb_filler.
Qed.

Lemma trailing_filler_ambiguity_witness :
  exists cs r k,
    Encoder.chunk_message (blit "a_b__") 4 = Some cs
    /\ Decoder.decode_payload_chunks (map Encoder.encode_chunk cs) = Some r
    /\ (0 < k)%nat /\ blit "a_b__" = r ++ repeat "_"%byte k
    /\ (forall r', r <> r' ++ ["_"%byte])
    /\ r <> blit "a_b__".
Proof.
  apply (trailing_filler_ambiguity (blit "a_b__") 4);
    [reflexivity|discriminate|reflexivity].
Defined.

(** C6, as stated, fails: the message has 31 bytes, so chunk size 8
    gives 4 chunks, not 5. *)
Lemma scenario_D_not_five_chunks :
  ~ (exists cs, Encoder.chunk_message scenario_message 8 = Some cs
                /\ length cs = 5%nat
                /\ Decoder.decode_payload_chunks (map Encoder.encode_chunk cs)
                   = Some scenario_message).
Proof.
  intros [cs [E [L _]]]. vm_compute in E. injection E as <-. discriminate L.
Qed.

(** C6, amended. Chunking the message "hello from nsec cache datastore"
    with chunk size 8 gives exactly 4 payload chunks (the message has 31
    bytes), and decoding the encoded chunks in order, concatenating and
    stripping the filler gives the message back. *)
Theorem scenario_D_end_to_end :
  exists cs, Encoder.chunk_message scenario_message 8 = Some cs
             /\ length cs = 4%nat
             /\ len scenario_message = 31
             /\ Decoder.decode_payload_chunks (map Encoder.encode_chunk cs)
                = Some scenario_message.
Proof.
  eexists. split; [vm_compute; reflexivity|].
  split; [reflexivity|]. split; vm_compute; reflexivity.
Qed.

(** ** Characters and strings *)
Section StringFacts.
Import Ordering.

Lemma ascii_all (P : ascii -> bool) :
  (forall b0 b1 b2 b3 b4 b5 b6 b7, P (Ascii b0 b1 b2 b3 b4 b5 b6 b7) = true) ->
  forall c, P c = true.
Proof. intros H [b0 b1 b2 b3 b4 b5 b6 b7]. apply H. Qed.

Lemma lower_char_is_dot c : is_dot (lower_char c) = is_dot c.
Proof.
  enough (H : Bool.eqb (is_dot (lower_char c)) (is_dot c) = true)
    by now apply Bool.eqb_prop.
  revert c. apply (ascii_all (fun c => Bool.eqb (is_dot (lower_char c)) (is_dot c))).
  intros [] [] [] [] [] [] [] []; vm_compute; reflexivity.
Qed.

Lemma lower_char_digit c : is_digit c = true -> lower_char c = c.
Proof.
  intros H. apply Ascii.eqb_eq. revert H.
  enough (E : implb (is_digit c) (Ascii.eqb (lower_char c) c) = true)
    by (destruct (is_digit c); [intros _; exact E|discriminate]).
  revert c.
  apply (ascii_all (fun c => implb (is_digit c) (Ascii.eqb (lower_char c) c))).
  intros [] [] [] [] [] [] [] []; vm_compute; reflexivity.
Qed.

Lemma digit_not_dot c : is_digit c = true -> is_dot c = false.
Proof.
  enough (E : implb (is_digit c) (negb (is_dot c)) = true)
    by (destruct (is_digit c); [intros _; now apply negb_true_iff|discriminate]).
  revert c. apply (ascii_all (fun c => implb (is_digit c) (negb (is_dot c)))).
  intros [] [] [] [] [] [] [] []; vm_compute; reflexivity.
Qed.

Lemma digit_not_newline c : is_digit c = true -> Ascii.eqb c newline = false.
Proof.
  enough (E : implb (is_digit c) (negb (Ascii.eqb c newline)) = true)
    by (destruct (is_digit c); [intros _; now apply negb_true_iff|discriminate]).
  revert c.
  apply (ascii_all (fun c => implb (is_digit c) (negb (Ascii.eqb c newline)))).
  intros [] [] [] [] [] [] [] []; vm_compute; reflexivity.
Qed.

Lemma digit_val_range c : is_digit c = true -> 0 <= digit_val c <= 9.
Proof.
  unfold is_digit, digit_val. intros H. apply andb_prop in H.
  destruct H as [H1 H2]. apply Z.leb_le in H1, H2. lia.
Qed.

Lemma code_chr n : 0 <= n < 256 -> code (chr n) = n.
Proof.
  intros Hn. unfold code, chr. rewrite N_ascii_embedding; lia.
Qed.

Lemma digit_char_ok d :
  0 <= d <= 9 -> is_digit (digit_char d) = true /\ digit_val (digit_char d) = d.
Proof.
  intros Hd. unfold is_digit, digit_val, digit_char.
  rewrite code_chr by lia. split; [|lia].
  apply andb_true_iff. split; apply Z.leb_le; lia.
Qed.

Lemma rstrip_lower s : rstrip is_dot (lower s) = lower (rstrip is_dot s).
Proof.
  induction s as [|c s IH]; [reflexivity|].
  cbn [lower map rstrip]. fold (lower s). rewrite IH.
  destruct (rstrip is_dot s); cbn [lower map]; [|reflexivity].
  rewrite lower_char_is_dot. now destruct (is_dot c).
Qed.

Lemma lower_app a b : lower (a ++ b) = lower a ++ lower b.
Proof. apply map_app. Qed.

Lemma rstrip_dot_app zone : rstrip is_dot (zone ++ dot) = rstrip is_dot zone.
Proof. now apply rstrip_app_nil. Qed.

(** After a part that [rstrip] leaves alone, only the rest can be
    shortened. *)
Lemma rstrip_app_stable {A} (f : A -> bool) a b :
  rstrip f a = a ->
  rstrip f (a ++ b) = a ++ rstrip f b.
Proof.
  intros Ha. destruct (rstrip f b) eqn:E.
  - rewrite rstrip_app_nil, app_nil_r; trivial.
  - rewrite rstrip_app_keep, E; [reflexivity|]. rewrite E. discriminate.
Qed.

Lemma rstrip_all_false {A} (f : A -> bool) s :
  forallb (fun x => negb (f x)) s = true -> rstrip f s = s.
Proof.
  induction s as [|x s IH]; [reflexivity|]. cbn [forallb rstrip].
  intros H. apply andb_prop in H. destruct H as [Hx Hs].
  rewrite IH by trivial. destruct s; [|reflexivity].
  apply negb_true_iff in Hx. now rewrite Hx.
Qed.

(** *** [endswith], [split], [join] *)

Lemma str_eqb_refl s : str_eqb s s = true.
Proof.
  induction s as [|c s IH]; [reflexivity|]. cbn. now rewrite Ascii.eqb_refl.
Qed.

Lemma str_eqb_eq a b : str_eqb a b = true <-> a = b.
Proof.
  split; [|intros ->; apply str_eqb_refl].
  revert b. induction a as [|x a IH]; intros [|y b]; cbn; try discriminate; trivial.
  intros H. apply andb_prop in H. destruct H as [H1 H2].
  apply Ascii.eqb_eq in H1. apply IH in H2. now subst.
Qed.

Lemma endswith_app a b : endswith (a ++ b) b = true.
Proof.
  unfold endswith. rewrite length_app. apply andb_true_iff. split.
  - apply Nat.leb_le. lia.
  - replace (length a + length b - length b)%nat with (length a) by lia.
    rewrite skipn_app, Nat.sub_diag, skipn_all. apply str_eqb_refl.
Qed.

Lemma endswith_last s x y :
  x <> y -> endswith (s ++ [x]) [y] = false.
Proof.
  intros H. unfold endswith. rewrite length_app. cbn [length].
  replace (length s + 1 - 1)%nat with (length s) by lia.
  rewrite skipn_app, Nat.sub_diag, skipn_all. cbn.
  replace (Ascii.eqb x y) with false by (symmetry; now apply Ascii.eqb_neq).
  apply andb_false_r.
Qed.

Lemma drop_last_exact {A} (a b : list A) : drop_last (length b) (a ++ b) = a.
Proof.
  unfold drop_last. rewrite length_app.
  replace (length a + length b - length b)%nat with (length a) by lia.
  rewrite firstn_app, Nat.sub_diag, firstn_all. cbn. apply app_nil_r.
Qed.

Lemma split_nonempty c s : split c s <> [].
Proof.
  destruct s as [|x s]; cbn; [discriminate|].
  destruct (Ascii.eqb x c); [discriminate|].
  destruct (split c s); discriminate.
Qed.

Lemma split_no_sep c s :
  forallb (fun x => negb (Ascii.eqb x c)) s = true -> split c s = [s].
Proof.
  induction s as [|x s IH]; [reflexivity|]. cbn [forallb split].
  intros H. apply andb_prop in H. destruct H as [Hx Hs].
  apply negb_true_iff in Hx. now rewrite Hx, IH.
Qed.

Lemma split_app_sep c a b :
  forallb (fun x => negb (Ascii.eqb x c)) a = true ->
  split c (a ++ c :: b) = a :: split c b.
Proof.
  induction a as [|x a IH]; cbn [forallb app split].
  - intros _. now rewrite Ascii.eqb_refl.
  - intros H. apply andb_prop in H. destruct H as [Hx Hs].
    apply negb_true_iff in Hx. now rewrite Hx, IH.
Qed.

Lemma join_split c s : join [c] (split c s) = s.
Proof.
  induction s as [|x s IH]; [reflexivity|]. cbn [split].
  destruct (Ascii.eqb x c) eqn:E.
  - apply Ascii.eqb_eq in E. subst x.
    pose proof (split_nonempty c s) as N.
    destruct (split c s) as [|h r]; [congruence|].
    change (join [c] ([] :: h :: r)) with ([] ++ [c] ++ join [c] (h :: r)).
    now rewrite IH.
  - pose proof (split_nonempty c s) as N.
    destruct (split c s) as [|h r]; [congruence|].
    rewrite <- IH. destruct r; reflexivity.
Qed.

End StringFacts.

(** ** Decimal rendering of the index *)
Section IndexDigits.

Lemma int_of_digits_snoc ds c :
  int_of_digits (ds ++ [c]) = int_of_digits ds * 10 + digit_val c.
Proof. unfold int_of_digits. now rewrite fold_left_app. Qed.

Lemma int_fold_shift s a :
  fold_left (fun acc c => acc * 10 + digit_val c) s a
  = a * 10 ^ len s + int_of_digits s.
Proof.
  unfold int_of_digits. revert a. induction s as [|c s IH]; intros a.
  - cbn. lia.
  - cbn [fold_left]. rewrite (IH (a * 10 + digit_val c)), (IH (0 * 10 + digit_val c)).
    unfold len. cbn [length]. rewrite Nat2Z.inj_succ, Z.pow_succ_r by lia. lia.
Qed.

Lemma int_of_digits_cons c s :
  int_of_digits (c :: s) = digit_val c * 10 ^ len s + int_of_digits s.
Proof.
  unfold int_of_digits at 1. cbn [fold_left]. rewrite int_fold_shift. lia.
Qed.

Lemma int_of_digits_bound s :
  forallb is_digit s = true -> 0 <= int_of_digits s < 10 ^ len s.
Proof.
  induction s as [|c s IH]; [cbn; lia|]. cbn [forallb]. intros H.
  apply andb_prop in H. destruct H as [Hc Hs].
  rewrite int_of_digits_cons. pose proof (digit_val_range c Hc).
  specialize (IH Hs). unfold len in *. cbn [length].
  rewrite Nat2Z.inj_succ, Z.pow_succ_r by lia. nia.
Qed.

Lemma digits_loop_spec fuel n acc :
  (0 < fuel)%nat -> 0 <= n < 2 ^ Z.of_nat fuel ->
  exists ds, digits_loop fuel n acc = ds ++ acc
             /\ forallb is_digit ds = true
             /\ ds <> []
             /\ int_of_digits ds = n.
Proof.
  revert n acc. induction fuel as [|f IH]; intros n acc Hf Hn; [lia|].
  cbn [digits_loop].
  assert (Hd : 0 <= n mod 10 <= 9) by (pose proof (Z.mod_pos_bound n 10); lia).
  destruct (digit_char_ok _ Hd) as [D1 D2].
  destruct (n / 10 =? 0) eqn:E.
  - apply Z.eqb_eq in E. exists [digit_char (n mod 10)].
    repeat split; [cbn; now rewrite D1|discriminate|].
    cbn. rewrite D2. pose proof (Z.div_mod n 10). lia.
  - apply Z.eqb_neq in E.
    rewrite Nat2Z.inj_succ, Z.pow_succ_r in Hn by lia.
    assert (H10 : 0 < n / 10 < 2 ^ Z.of_nat f).
    { pose proof (Z.div_mod n 10). pose proof (Z.div_pos n 10). lia. }
    assert (Hf' : (0 < f)%nat).
    { destruct f; [|lia]. cbn in H10. lia. }
    destruct (IH (n / 10) (digit_char (n mod 10) :: acc) Hf') as [ds [E1 [E2 [E3 E4]]]];
      [lia|].
    exists (ds ++ [digit_char (n mod 10)]). repeat split.
    + now rewrite E1, <- app_assoc.
    + rewrite forallb_app, E2. cbn. now rewrite D1.
    + now destruct ds.
    + rewrite int_of_digits_snoc, E4, D2. pose proof (Z.div_mod n 10). lia.
Qed.

Lemma str_of_nonneg_spec n :
  0 <= n ->
  forallb is_digit (str_of_nonneg n) = true
  /\ str_of_nonneg n <> []
  /\ int_of_digits (str_of_nonneg n) = n.
Proof.
  intros Hn. unfold str_of_nonneg.
  destruct (digits_loop_spec (S (Z.to_nat (Z.log2 n))) n []) as [ds [E H]];
    [lia| |].
  - rewrite Nat2Z.inj_succ, Z2Nat.id by apply Z.log2_nonneg.
    split; [lia|]. destruct (Z.eq_dec n 0) as [->|Hz]; [cbn; lia|].
    apply Z.log2_spec. lia.
  - rewrite E, app_nil_r. exact H.
Qed.

Lemma zfill_spec w s :
  forallb is_digit s = true ->
  forallb is_digit (zfill w s) = true
  /\ int_of_digits (zfill w s) = int_of_digits s.
Proof.
  intros Hs. unfold zfill. induction (w - length s)%nat as [|k [I1 I2]].
  - now split.
  - cbn [repeat app]. split; [cbn [forallb]; now rewrite I1|].
    rewrite int_of_digits_cons, I2. change (digit_val "0") with 0. lia.
Qed.

(** For [index >= 0], [f"{index:04d}"] is a non-empty run of digits
    that [int] reads back as [index]. *)
Lemma format_04d_spec i :
  0 <= i ->
  forallb is_digit (format_04d i) = true
  /\ format_04d i <> []
  /\ int_of_digits (format_04d i) = i.
Proof.
  intros Hi. unfold format_04d.
  replace (i <? 0) with false by (symmetry; apply Z.ltb_ge; lia).
  destruct (str_of_nonneg_spec i Hi) as [D [N V]].
  destruct (zfill_spec 4 _ D) as [D' V'].
  repeat split; trivial; [|congruence].
  unfold zfill. intros E. apply app_eq_nil in E. tauto.
Qed.

(** Up to 9999 the index takes exactly four characters. *)
Lemma format_04d_width i : 0 <= i < 10000 -> length (format_04d i) = 4%nat.
Proof.
  intros Hi.
  assert (H : forallb (fun k => Nat.eqb (length (format_04d (Z.of_nat k))) 4)
                      (seq 0 (Z.to_nat 10000)) = true) by (vm_compute; reflexivity).
  rewrite forallb_forall in H. specialize (H (Z.to_nat i)).
  rewrite Z2Nat.id in H by lia. apply Nat.eqb_eq, H, in_seq. lia.
Qed.

End IndexDigits.

(** ** ordering.py: building and parsing names *)
Section NameFacts.
Import Ordering.

Lemma b32_lower_or_dot_fixed c :
  is_b32_lower c || is_dot c = true -> lower_char c = c.
Proof.
  intros H. apply Ascii.eqb_eq. revert H.
  enough (E : implb (is_b32_lower c || is_dot c) (Ascii.eqb (lower_char c) c) = true)
    by (destruct (is_b32_lower c || is_dot c); [intros _; exact E|discriminate]).
  revert c.
  apply (ascii_all (fun c => implb (is_b32_lower c || is_dot c)
                                   (Ascii.eqb (lower_char c) c))).
  intros [] [] [] [] [] [] [] []; vm_compute; reflexivity.
Qed.

Lemma lower_fixed (P : ascii -> bool) s :
  (forall c, P c = true -> lower_char c = c) ->
  forallb P s = true -> lower s = s.
Proof.
  intros HP. induction s as [|c s IH]; [reflexivity|]. cbn [forallb lower map].
  intros H. apply andb_prop in H. destruct H as [Hc Hs].
  fold (lower s). now rewrite IH, HP.
Qed.

Lemma valid_zone_spec z :
  valid_zone z = true -> z <> [] /\ rstrip is_dot z = z /\ lower z = z.
Proof.
  unfold valid_zone. intros H. apply andb_prop in H. destruct H as [H1 H2].
  apply str_eqb_eq in H2. destruct (rev z) as [|c r] eqn:E; [discriminate|].
  apply (f_equal (@rev _)) in E. rewrite rev_involutive in E. cbn in E.
  apply negb_true_iff in H1. subst z. repeat split; trivial.
  - now destruct (rev r).
  - now apply rstrip_snoc_keep.
Qed.

Lemma index_label_lower i : 0 <= i -> lower (index_label i) = index_label i.
Proof.
  intros Hi. destruct (format_04d_spec i Hi) as [D _].
  unfold index_label. cbn [lower map]. f_equal.
  now apply (lower_fixed is_digit); [apply lower_char_digit|].
Qed.

Lemma index_label_no_dot i :
  0 <= i ->
  forallb (fun x => negb (Ascii.eqb x "."%char)) (index_label i) = true.
Proof.
  intros Hi. destruct (format_04d_spec i Hi) as [D _].
  unfold index_label. cbn [forallb]. apply andb_true_iff. split; [reflexivity|].
  rewrite forallb_forall in *. intros c Hc. specialize (D c Hc).
  apply digit_not_dot in D. unfold is_dot, is_char in D.
  rewrite Ascii.eqb_sym. now rewrite D.
Qed.

Lemma match_index_label i :
  0 <= i -> match_n_digits (index_label i) = Some (format_04d i).
Proof.
  intros Hi. destruct (format_04d_spec i Hi) as [D [N _]].
  unfold index_label, match_n_digits. rewrite Ascii.eqb_refl.
  destruct (rev (format_04d i)) as [|x r] eqn:E.
  - destruct (format_04d i); [congruence|]. now rewrite D.
  - assert (Hx : is_digit x = true).
    { rewrite forallb_forall in D. apply D, in_rev. rewrite E. now left. }
    rewrite (digit_not_newline x Hx).
    destruct (format_04d i); [congruence|]. now rewrite D.
Qed.

End NameFacts.

(** C10. The zone may be given with or without its trailing root dot:
    [node_name_for_index], [in_gap_name], [verification_in_gap_name]
    and [parse_node_name] return the same result for [zone] and for
    [zone + '.'], whatever the other arguments. *)
Theorem zone_trailing_dot_insensitive
  (index variant : Z) (payload suffix name zone : str) (absolute : bool) :
  Ordering.node_name_for_index index payload (zone ++ lit ".") absolute
  = Ordering.node_name_for_index index payload zone absolute
  /\ Ordering.in_gap_name index (zone ++ lit ".") suffix absolute
     = Ordering.in_gap_name index zone suffix absolute
  /\ Ordering.verification_in_gap_name index (zone ++ lit ".") variant
     = Ordering.verification_in_gap_name index zone variant
  /\ Ordering.parse_node_name name (zone ++ lit ".")
     = Ordering.parse_node_name name zone.
Proof.
  unfold Ordering.node_name_for_index, Ordering.verification_in_gap_name,
    Ordering.in_gap_name, Ordering.parse_node_name.
  change (lit ".") with Ordering.dot. rewrite rstrip_dot_app. repeat split.
Qed.

(** C3. For every [index >= 0], every valid payload text and every
    valid zone, parsing the absolute node name gives back the index and
    the payload text. *)
Theorem parse_node_name_inverse (index : Z) (payload_text zone : str) :
  0 <= index ->
  valid_payload_text payload_text = true ->
  valid_zone zone = true ->
  Ordering.parse_node_name
    (Ordering.node_name_for_index index payload_text zone true) zone
  = Some (index, payload_text).
Proof.
  intros Hi Hp Hz.
  destruct (valid_zone_spec zone Hz) as [Zne [Zr Zl]].
  unfold valid_payload_text in Hp. apply andb_prop in Hp. destruct Hp as [Hp _].
  apply andb_prop in Hp. destruct Hp as [_ Hp].
  assert (Pl : lower payload_text = payload_text)
    by (eapply lower_fixed; [apply b32_lower_or_dot_fixed|exact Hp]).
  destruct (format_04d_spec index Hi) as [_ [_ V]].
  unfold Ordering.node_name_for_index, Ordering.parse_node_name.
  fold (index_label index). rewrite Zr, Zl.
  set (pre := index_label index ++ Ordering.dot ++ payload_text).
  replace ((index_label index ++ Ordering.dot ++ payload_text ++ Ordering.dot ++ zone)
           ++ Ordering.dot)
    with (pre ++ (Ordering.dot ++ zone) ++ Ordering.dot)
    by (unfold pre; now rewrite <- !app_assoc).
  assert (Er : rstrip Ordering.is_dot (pre ++ (Ordering.dot ++ zone) ++ Ordering.dot)
               = pre ++ Ordering.dot ++ zone).
  { rewrite app_assoc, rstrip_dot_app, rstrip_app_keep.
    - f_equal. rewrite rstrip_app_keep; rewrite Zr; trivial.
    - rewrite rstrip_app_keep; rewrite Zr; trivial. discriminate. }
  rewrite Er.
  assert (El : lower (pre ++ Ordering.dot ++ zone) = pre ++ Ordering.dot ++ zone).
  { unfold pre. rewrite !lower_app, index_label_lower, Pl, Zl by trivial.
    now rewrite <- !app_assoc. }
  rewrite El, endswith_app. cbn [negb]. rewrite drop_last_exact.
  unfold pre, Ordering.dot. cbn [app].
  rewrite split_app_sep by now apply index_label_no_dot.
  pose proof (split_nonempty "."%char payload_text) as N.
  destruct (split "."%char payload_text) as [|h r] eqn:S; [congruence|].
  cbn [length Nat.ltb Nat.leb hd tl]. rewrite match_index_label by trivial.
  now rewrite V, <- S, join_split.
Qed.

Lemma parse_node_name_inverse_witness :
  Ordering.parse_node_name
    (Ordering.node_name_for_index 0 (lit "nbswy3dp") (lit "zone.test") true)
    (lit "zone.test")
  = Some (0, lit "nbswy3dp").
Proof.
  apply (parse_node_name_inverse 0 (lit "nbswy3dp") (lit "zone.test"));
    [lia|reflexivity|reflexivity].
Defined.

(** ** Probe names *)
Section ProbeFacts.
Import Ordering.

Lemma no_dot_rstrip s :
  forallb (fun x => negb (Ascii.eqb x "."%char)) s = true ->
  rstrip is_dot s = s.
Proof.
  intros H. apply rstrip_all_false. rewrite forallb_forall in *.
  intros x Hx. specialize (H x Hx). unfold is_dot, is_char.
  now rewrite Ascii.eqb_sym.
Qed.

(** The label of a probe name: the index label and one character. *)
Lemma probe_label_facts index c :
  0 <= index -> c <> "."%char ->
  let L := index_label index ++ [c] in
  forallb (fun x => negb (Ascii.eqb x "."%char)) L = true
  /\ forallb (fun x => negb (Ascii.eqb x "."%char)) (lower L) = true
  /\ lower L = index_label index ++ [lower_char c].
Proof.
  intros Hi Hc L. subst L.
  assert (Hl : Ascii.eqb (lower_char c) "."%char = false).
  { pose proof (lower_char_is_dot c) as E. unfold is_dot, is_char in E.
    rewrite Ascii.eqb_sym, E. now apply Ascii.eqb_neq. }
  assert (EL : lower (index_label index ++ [c])
               = index_label index ++ [lower_char c])
    by now rewrite lower_app, index_label_lower.
  split; [|split; [rewrite EL|exact EL]];
    rewrite forallb_app, index_label_no_dot by trivial; cbn.
  - apply Ascii.eqb_neq in Hc. now rewrite Hc.
  - now rewrite Hl.
Qed.

Lemma gap_name_shape index zone suffix absolute :
  in_gap_name index zone suffix absolute
  = (index_label index ++ suffix) ++ dot ++ rstrip is_dot zone
    ++ (if absolute then dot else []).
Proof.
  unfold in_gap_name, index_label.
  destruct absolute; now rewrite <- ?app_assoc, ?app_nil_r.
Qed.

Lemma rstrip_after_label L z (absolute : bool) :
  rstrip is_dot L = L ->
  rstrip is_dot (L ++ dot ++ rstrip is_dot z ++ (if absolute then dot else []))
  = match rstrip is_dot z with
    | [] => L
    | _ => L ++ dot ++ rstrip is_dot z
    end.
Proof.
  intros HL.
  assert (E : rstrip is_dot (L ++ dot ++ rstrip is_dot z)
              = match rstrip is_dot z with
                | [] => L
                | _ => L ++ dot ++ rstrip is_dot z
                end).
  { rewrite rstrip_app_stable by trivial.
    destruct (rstrip is_dot z) as [|x r] eqn:Z.
    - cbn. apply app_nil_r.
    - rewrite rstrip_app_keep; rewrite <- Z, rstrip_idem; [reflexivity|].
      rewrite Z. discriminate. }
  destruct absolute; [|now rewrite app_nil_r].
  now rewrite !app_assoc, rstrip_dot_app, <- !app_assoc.
Qed.

Lemma parse_single_label L zone (absolute : bool) :
  forallb (fun x => negb (Ascii.eqb x "."%char)) L = true ->
  forallb (fun x => negb (Ascii.eqb x "."%char)) (lower L) = true ->
  L <> [] ->
  parse_node_name
    (L ++ dot ++ rstrip is_dot zone ++ (if absolute then dot else [])) zone
  = None.
Proof.
  intros HL HlL Hne. unfold parse_node_name.
  rewrite rstrip_after_label by now apply no_dot_rstrip.
  destruct (rstrip is_dot zone) as [|x r] eqn:Z.
  - destruct (@exists_last _ (lower L)) as [l' [y E]];
      [destruct L; [congruence|discriminate]|].
    assert (Hy : y <> "."%char).
    { rewrite E, forallb_app in HlL. apply andb_prop in HlL.
      destruct HlL as [_ HlL]. cbn in HlL. rewrite andb_true_r in HlL.
      apply negb_true_iff in HlL. now apply Ascii.eqb_neq. }
    cbn [lower map app]. fold (lower L). rewrite E.
    change (dot ++ []) with ["."%char]. now rewrite endswith_last.
  - rewrite !lower_app.
    change (lower dot) with dot.
    rewrite endswith_app. cbn [negb]. rewrite drop_last_exact.
    now rewrite split_no_sep.
Qed.

Lemma extract_single_label L zone (absolute : bool) :
  forallb (fun x => negb (Ascii.eqb x "."%char)) L = true ->
  forallb (fun x => negb (Ascii.eqb x "."%char)) (lower L) = true ->
  L <> [] ->
  Parser.extract_payload_from_next_name
    (L ++ dot ++ rstrip is_dot zone ++ (if absolute then dot else [])) zone
  = None.
Proof.
  intros HL HlL Hne. unfold Parser.extract_payload_from_next_name.
  rewrite !rstrip_lower.
  rewrite rstrip_after_label by now apply no_dot_rstrip.
  destruct (endswith _ (lower (rstrip is_dot zone))); [|reflexivity].
  cbn [negb].
  destruct (rstrip is_dot zone) as [|x r] eqn:Z.
  - destruct (@exists_last _ (lower L)) as [l' [y E]];
      [destruct L; [congruence|discriminate]|].
    assert (Hy : y <> "."%char).
    { rewrite E, forallb_app in HlL. apply andb_prop in HlL.
      destruct HlL as [_ HlL]. cbn in HlL. rewrite andb_true_r in HlL.
      apply negb_true_iff in HlL. now apply Ascii.eqb_neq. }
    cbn [lower map app]. fold (lower L).
    change (dot ++ []) with ["."%char].
    replace (endswith (lower L) ["."%char]) with false
      by (rewrite E; now rewrite endswith_last).
    rewrite split_no_sep by trivial. cbn [length hd Nat.eqb orb Nat.ltb Nat.leb].
    now destruct (negb (startswith (lower L) (lit "n"))).
  - rewrite !lower_app. change (lower dot) with dot.
    rewrite endswith_app, drop_last_exact, split_no_sep by trivial.
    cbn [length hd Nat.eqb orb Nat.ltb Nat.leb].
    now destruct (negb (startswith (lower L) (lit "n"))).
Qed.

End ProbeFacts.

(** C9, as stated, fails: the one-character suffix ['.'] makes the
    probe name a two-label name with an empty payload, which both
    parsers accept. *)
Lemma probe_dot_suffix_is_parsed :
  Ordering.parse_node_name
    (Ordering.in_gap_name 0 (lit "zone.test") (lit ".") true) (lit "zone.test")
  = Some (0, lit "")
  /\ Parser.extract_payload_from_next_name
       (Ordering.in_gap_name 0 (lit "zone.test") (lit ".") true) (lit "zone.test")
     = Some (lit "").
Proof. split; vm_compute; reflexivity. Qed.

(** C9, amended. For every [index >= 0], every zone and every
    one-character suffix other than ['.'] (so for ['z'] and the ten
    verification suffixes), the in-gap name has exactly one label before
    the zone, and [parse_node_name] and
    [extract_payload_from_next_name] both return [None] on it. *)
Theorem probe_names_are_not_payload_nodes
  (index : Z) (zone : str) (c : ascii) (absolute : bool) :
  0 <= index -> c <> "."%char ->
  (exists label,
      forallb (fun x => negb (Ascii.eqb x "."%char)) label = true
      /\ Ordering.in_gap_name index zone [c] absolute
         = label ++ lit "." ++ rstrip Ordering.is_dot zone
           ++ (if absolute then lit "." else []))
  /\ Ordering.parse_node_name
       (Ordering.in_gap_name index zone [c] absolute) zone = None
  /\ Parser.extract_payload_from_next_name
       (Ordering.in_gap_name index zone [c] absolute) zone = None.
Proof.
  intros Hi Hc.
  destruct (probe_label_facts index c Hi Hc) as [H1 [H2 _]].
  rewrite gap_name_shape. split; [|split].
  - exists (index_label index ++ [c]). now split.
  - apply parse_single_label; trivial. now destruct (index_label index).
  - apply extract_single_label; trivial. now destruct (index_label index).
Qed.

Lemma probe_names_are_not_payload_nodes_witness :
  (exists label,
      forallb (fun x => negb (Ascii.eqb x "."%char)) label = true
      /\ Ordering.in_gap_name 7 (lit "zone.test") ["z"%char] true
         = label ++ lit "." ++ rstrip Ordering.is_dot (lit "zone.test")
           ++ lit ".")
  /\ Ordering.parse_node_name
       (Ordering.in_gap_name 7 (lit "zone.test") ["z"%char] true)
       (lit "zone.test") = None
  /\ Parser.extract_payload_from_next_name
       (Ordering.in_gap_name 7 (lit "zone.test") ["z"%char] true)
       (lit "zone.test") = None.
Proof.
  apply (probe_names_are_not_payload_nodes 7 (lit "zone.test") "z"%char true);
    [lia|discriminate].
Defined.

(** C5 fails on the code at a name of another zone whose last labels
    end with the zone text: the first test is [endswith(zone)], without
    the separating dot, and the suffix is then left in place.
    [parse_node_name] rejects the same name. *)
Theorem extract_payload_accepts_foreign_zone :
  endswith (rstrip Ordering.is_dot (lower (lit "n0001.abc.myzone.test.")))
           (lit "." ++ lit "zone.test") = false
  /\ Parser.extract_payload_from_next_name
       (lit "n0001.abc.myzone.test.") (lit "zone.test")
     = Some (lit "abc.myzone.test")
  /\ Ordering.parse_node_name (lit "n0001.abc.myzone.test.") (lit "zone.test")
     = None.
Proof. repeat split; vm_compute; reflexivity. Qed.

(** ** Ordering of names *)
Section OrderFacts.
Import Ordering.

Lemma str_lt_app_common a x y : str_lt (a ++ x) (a ++ y) = str_lt x y.
Proof.
  induction a as [|c a IH]; [reflexivity|]. cbn [app str_lt].
  rewrite Z.ltb_irrefl, Z.eqb_refl. exact IH.
Qed.

Lemma str_lt_strict_app a b x y :
  str_lt_strict a b = true -> str_lt (a ++ x) (b ++ y) = true.
Proof.
  revert b. induction a as [|c a IH]; intros [|d b]; cbn; try discriminate.
  destruct (code c <? code d); [reflexivity|].
  destruct (code c =? code d); [apply IH|discriminate].
Qed.

Lemma digits_lt_strict a b :
  length a = length b ->
  forallb is_digit a = true -> forallb is_digit b = true ->
  int_of_digits a < int_of_digits b ->
  str_lt_strict a b = true.
Proof.
  revert b. induction a as [|x a IH]; intros [|y b] L Da Db V;
    try discriminate.
  cbn [forallb] in Da, Db. apply andb_prop in Da, Db.
  destruct Da as [Dx Da], Db as [Dy Db].
  rewrite !int_of_digits_cons in V.
  pose proof (int_of_digits_bound a Da) as Ba.
  pose proof (int_of_digits_bound b Db) as Bb.
  assert (EL : len a = len b) by (unfold len; cbn in L; lia).
  rewrite EL in *. cbn [str_lt_strict].
  destruct (code x <? code y) eqn:E1; [reflexivity|].
  apply Z.ltb_ge in E1. unfold digit_val in V.
  destruct (code x =? code y) eqn:E2.
  - apply Z.eqb_eq in E2. apply IH; trivial; [cbn in L; lia|].
    rewrite E2 in V. lia.
  - apply Z.eqb_neq in E2. nia.
Qed.

(** Consecutive index labels of the same width are ordered at one of
    their own characters. *)
Lemma index_label_lt i :
  0 <= i ->
  length (format_04d i) = length (format_04d (i + 1)) ->
  str_lt_strict (index_label i) (index_label (i + 1)) = true.
Proof.
  intros Hi L.
  destruct (format_04d_spec i Hi) as [D [_ V]].
  destruct (format_04d_spec (i + 1)) as [D' [_ V']]; [lia|].
  unfold index_label. cbn [str_lt_strict]. rewrite Z.ltb_irrefl, Z.eqb_refl.
  apply digits_lt_strict; trivial. lia.
Qed.

Lemma rstrip_head {A} (f : A -> bool) x t :
  rstrip f (x :: t) = [] \/ exists t', rstrip f (x :: t) = x :: t'.
Proof.
  cbn [rstrip]. destruct (rstrip f t) as [|y r].
  - destruct (f x); [now left|right; now exists []].
  - right. now eexists.
Qed.

(** A node name, lowercased and stripped as [is_name_between] does: the
    index label alone, or the index label, a dot and more. *)
Lemma node_name_normal i p zone :
  0 <= i ->
  exists X, rstrip is_dot (lower (node_name_for_index i p zone true))
            = index_label i ++ X
            /\ (X = [] \/ exists X', X = "."%char :: X').
Proof.
  intros Hi. unfold node_name_for_index. fold (index_label i).
  rewrite rstrip_lower, <- !app_assoc.
  rewrite rstrip_app_stable
    by (apply no_dot_rstrip; now apply index_label_no_dot).
  rewrite lower_app, index_label_lower by trivial.
  unfold dot at 1. cbn [app].
  destruct (rstrip_head is_dot "."%char (p ++ dot ++ rstrip is_dot zone ++ dot))
    as [->|[t' ->]].
  - exists []. split; [reflexivity|now left].
  - eexists. split; [reflexivity|]. right. cbn [lower map].
    now eexists.
Qed.

(** A probe name, lowercased and stripped: the index label, the suffix
    character and more. *)
Lemma gap_name_normal i c zone :
  0 <= i -> c <> "."%char ->
  exists Y, rstrip is_dot (lower (in_gap_name i zone [c] true))
            = index_label i ++ lower_char c :: Y.
Proof.
  intros Hi Hc. destruct (probe_label_facts i c Hi Hc) as [H1 [_ H3]].
  rewrite rstrip_lower, gap_name_shape.
  rewrite (rstrip_after_label (index_label i ++ [c]) zone true)
    by now apply no_dot_rstrip.
  destruct (rstrip is_dot zone) as [|x r].
  - exists []. rewrite H3. reflexivity.
  - exists (lower (dot ++ x :: r)). rewrite lower_app, H3, <- app_assoc.
    reflexivity.
Qed.

Lemma gap_between i c zone lo hi :
  0 <= i ->
  length (format_04d i) = length (format_04d (i + 1)) ->
  c <> "."%char -> code "."%char < code (lower_char c) ->
  is_name_between (in_gap_name i zone [c] true)
    (node_name_for_index i lo zone true)
    (node_name_for_index (i + 1) hi zone true) = true.
Proof.
  intros Hi L Hc Hlt. unfold is_name_between.
  destruct (gap_name_normal i c zone Hi Hc) as [Y ->].
  destruct (node_name_normal i lo zone Hi) as [X [-> HX]].
  destruct (node_name_normal (i + 1) hi zone) as [X' [-> _]]; [lia|].
  apply andb_true_iff. split.
  - rewrite str_lt_app_common. destruct HX as [->|[X0 ->]]; [reflexivity|].
    cbn [str_lt]. now replace (code "." <? code (lower_char c)) with true
      by (symmetry; now apply Z.ltb_lt).
  - apply str_lt_strict_app. now apply index_label_lt.
Qed.

Lemma NoDup_map_injective {A B} (g : A -> B) (l : list A) :
  (forall x y, g x = g y -> x = y) -> NoDup l -> NoDup (map g l).
Proof.
  intros Hg. induction 1 as [|x l Hx _ IH]; cbn; constructor; trivial.
  intros Hin. apply in_map_iff in Hin. destruct Hin as [y [E Hy]].
  apply Hg in E. now subst.
Qed.

(** The suffix of the priming probe and those of the verification
    probes. *)
Lemma gap_names_suffixes i zone :
  gap_names i zone
  = map (fun s => in_gap_name i zone s true) (lit "z" :: suffixes).
Proof. reflexivity. Qed.

Lemma suffixes_distinct : NoDup (lit "z" :: suffixes).
Proof.
  repeat (constructor; [intros H; cbv in H; intuition discriminate|]).
  constructor.
Qed.

Lemma suffixes_letters :
  Forall (fun s => exists c, s = [c] /\ c <> "."%char
                             /\ code "."%char < code (lower_char c))
         (lit "z" :: suffixes).
Proof.
  repeat (constructor;
          [eexists; split; [reflexivity|split; [discriminate|reflexivity]]|]).
  constructor.
Qed.

End OrderFacts.

(** C2, as stated, fails at [index = 9999]: [n9999z] sorts after
    [n10000]. *)
Lemma in_gap_9999_not_between :
  Ordering.is_name_between
    (Ordering.in_gap_name 9999 (lit "zone.test") (lit "z") true)
    (Ordering.node_name_for_index 9999 (lit "a") (lit "zone.test") true)
    (Ordering.node_name_for_index (9999 + 1) (lit "a") (lit "zone.test") true)
  = false.
Proof. vm_compute. reflexivity. Qed.

(** C2, amended. For every [index >= 0] and every zone, the priming
    probe name and the ten verification probe names are eleven pairwise
    distinct names; and whenever the [04d] rendering of [index] is as
    long as that of [index + 1] (every index from 0 to 9998, see
    [format_04d_width]), each of them lies strictly between the node
    name of [index] (with any payload, so with the shortest one) and the
    node name of [index + 1] (with any payload) for [is_name_between]. *)
Theorem in_gap_disjoint_and_placed
  (index : Z) (zone lo_payload hi_payload : str) :
  0 <= index ->
  NoDup (gap_names index zone)
  /\ length (gap_names index zone) = 11%nat
  /\ (length (format_04d index) = length (format_04d (index + 1)) ->
      Forall (fun gap =>
                Ordering.is_name_between gap
                  (Ordering.node_name_for_index index lo_payload zone true)
                  (Ordering.node_name_for_index (index + 1) hi_payload zone true)
                = true)
             (gap_names index zone)).
Proof.
  intros Hi. split; [|split; [reflexivity|intros L]]; rewrite gap_names_suffixes.
  - apply NoDup_map_injective; [|apply suffixes_distinct].
    intros s s' E. rewrite !gap_name_shape in E.
    apply app_inv_tail in E. now apply app_inv_head in E.
  - apply Forall_map. eapply Forall_impl; [|apply suffixes_letters].
    intros s [c [-> [Hc Hlt]]]. now apply gap_between.
Qed.

Lemma in_gap_disjoint_and_placed_witness :
  NoDup (gap_names 0 (lit "zone.test"))
  /\ length (gap_names 0 (lit "zone.test")) = 11%nat
  /\ Forall (fun gap =>
               Ordering.is_name_between gap
                 (Ordering.node_name_for_index 0 (lit "a") (lit "zone.test") true)
                 (Ordering.node_name_for_index (0 + 1) (lit "a") (lit "zone.test") true)
               = true)
            (gap_names 0 (lit "zone.test")).
Proof.
  destruct (in_gap_disjoint_and_placed 0 (lit "zone.test") (lit "a") (lit "a"))
    as [H1 [H2 H3]]; [lia|].
  split; [exact H1|split; [exact H2|apply H3; reflexivity]].
Defined.

(** * Further properties of the codec *)

Section CodecMore.
Import Base32.

(** A byte string that does not end with the filler is left alone by
    [strip_padding]. *)
Lemma strip_padding_no_filler (m : list byte) :
  (forall m', m <> m' ++ ["_"%byte]) ->
  Decoder.strip_padding m (blit "_") = m.
Proof.
  intros Hm. unfold Decoder.strip_padding.
  destruct (rstrip_prefix (in_bytes (blit "_")) m) as [t [Et Ht]].
  destruct t as [|y t0]; [rewrite app_nil_r in Et; now symmetry|].
  exfalso. destruct (@exists_last _ (y :: t0)) as [t' [x E]]; [discriminate|].
  rewrite E in Et, Ht. rewrite forallb_app in Ht. apply andb_prop in Ht.
  destruct Ht as [_ Hx]. cbn in Hx. rewrite orb_false_r, andb_true_r in Hx.
  apply Byte.byte_dec_bl in Hx. subst x.
  apply (Hm (rstrip (in_bytes (blit "_")) m ++ t')).
  now rewrite <- app_assoc.
Qed.

Lemma tab_lower_b32 d : 0 <= d < 32 -> is_b32_lower (lower_char (b32tab d)) = true.
Proof.
  apply (below_32 (fun d => is_b32_lower (lower_char (b32tab d)) = true)).
  apply Forall_forall. apply forallb_forall. vm_compute. reflexivity.
Qed.

Lemma encode_chunk_decomp Q T :
  Forall (fun q => length q = 5%nat) Q -> (length T < 5)%nat ->
  Encoder.encode_chunk (concat Q ++ T)
  = lower (concat (map encode_quantum Q) ++ tail_chars T).
Proof.
  intros HQ Hlen.
  destruct (quanta_digits Q HQ) as [d1 [E1 H1]].
  destruct (tail_chars_digits T Hlen) as [d2 [E2 [H2 L2]]].
  unfold Encoder.encode_chunk.
  rewrite b32encode_decomp, app_assoc by trivial.
  rewrite rstrip_app_repeat by reflexivity.
  rewrite E1, E2, <- map_app, rstrip_tab; [reflexivity|].
  apply Forall_app. now split.
Qed.

Lemma encode_chunk_shape_decomp Q T :
  Forall (fun q => length q = 5%nat) Q -> (length T < 5)%nat ->
  forallb is_b32_lower (Encoder.encode_chunk (concat Q ++ T)) = true
  /\ len (Encoder.encode_chunk (concat Q ++ T))
     = ceil_div (8 * len (concat Q ++ T)) 5.
Proof.
  intros HQ Hlen.
  destruct (quanta_digits Q HQ) as [d1 [E1 H1]].
  destruct (tail_chars_digits T Hlen) as [d2 [E2 [H2 L2]]].
  rewrite encode_chunk_decomp by trivial. split.
  - rewrite E1, E2, <- map_app. unfold lower. rewrite map_map.
    apply forallb_forall. intros c Hc. apply in_map_iff in Hc.
    destruct Hc as [d [<- Hd]]. apply tab_lower_b32.
    assert (HX : Forall (fun d => 0 <= d < 32) (d1 ++ d2))
      by (apply Forall_app; now split).
    rewrite Forall_forall in HX. now apply HX.
  - unfold lower, len. rewrite length_map, !length_app, quanta_length.
    rewrite E2, length_map, L2, (concat_length_const 5) by trivial.
    symmetry. apply ceil_div_spec; [lia|].
    destruct T as [|b0 [|b1 [|b2 [|b3 [|b4 T]]]]];
      try (simpl in Hlen; lia); cbn [length npad]; lia.
Qed.

Lemma encode_chunk_shape_any (chunk : list byte) :
  forallb is_b32_lower (Encoder.encode_chunk chunk) = true
  /\ len (Encoder.encode_chunk chunk) = ceil_div (8 * len chunk) 5.
Proof.
  destruct (chunks_full 5 chunk) as [Q [T [_ [-> [HQ HT]]]]]; [lia|].
  now apply encode_chunk_shape_decomp.
Qed.

Lemma remove_char_join c parts :
  remove_char c (join [c] parts) = remove_char c (concat parts).
Proof.
  unfold remove_char. induction parts as [|p [|p' r] IH]; [reflexivity| |].
  - cbn. now rewrite app_nil_r.
  - change (join [c] (p :: p' :: r)) with (p ++ [c] ++ join [c] (p' :: r)).
    change (concat (p :: p' :: r)) with (p ++ concat (p' :: r)).
    rewrite !filter_app, IH. cbn [filter]. now rewrite Ascii.eqb_refl.
Qed.

Lemma decode_labels_dots a b :
  remove_char "."%char a = remove_char "."%char b ->
  Decoder.decode_labels a = Decoder.decode_labels b.
Proof. intros E. unfold Decoder.decode_labels. now rewrite E. Qed.

Lemma split_labels_concat (t : list ascii) (k : Z) :
  0 < k ->
  exists segs, Encoder.split_into_labels t k = Some segs
               /\ concat segs = t
               /\ segs = match t with [] => [] | _ => chunks (Z.to_nat k) t end.
Proof.
  intros Hk. destruct t as [|c t]; [exists []; now repeat split|].
  remember (c :: t) as s eqn:Hs. exists (chunks (Z.to_nat k) s).
  split; [|split].
  - unfold Encoder.split_into_labels. rewrite Hs at 1.
    replace (k =? 0) with false by (symmetry; apply Z.eqb_neq; lia).
    f_equal. rewrite (range_chunks k s (fun w => w) Hk). apply map_id.
  - apply concat_chunks. lia.
  - now subst s.
Qed.

(** Decoding fails on a character outside the alphabet. *)
Lemma decode_acc_bad w c a :
  In c w -> b32rev c = None -> decode_acc w a = None.
Proof.
  revert a. induction w as [|x w IH]; intros a Hin Hc; [contradiction|].
  cbn [decode_acc]. destruct Hin as [->|Hin]; [now rewrite Hc|].
  destruct (b32rev x); [now apply IH|reflexivity].
Qed.

Lemma decode_ws_bad ws c d a :
  In c (concat ws) -> b32rev c = None -> decode_ws ws d a = None.
Proof.
  revert d a. induction ws as [|w ws IH]; intros d a Hin Hc; [contradiction|].
  cbn [concat] in Hin. cbn [decode_ws]. apply in_app_or in Hin.
  destruct Hin as [Hin|Hin].
  - now rewrite (decode_acc_bad w c 0).
  - destruct (decode_acc w 0) as [a'|]; [|reflexivity].
    destruct (to_bytes5 a'); [now apply IH|reflexivity].
Qed.

Lemma b32decode_loop_chunks s :
  decode_loop s (range 0 (len s) 8) [] 0 = decode_ws (chunks 8 s) [] 0.
Proof.
  rewrite decode_loop_ws, (range_chunks 8 s (fun w => w)) by lia.
  now rewrite map_id.
Qed.

Lemma upper_char_not_pad c :
  c <> "="%char -> is_char "="%char (upper_char c) = false.
Proof.
  intros Hc. apply Ascii.eqb_neq in Hc. revert Hc.
  enough (E : implb (negb (Ascii.eqb c "="%char))
                    (negb (is_char "="%char (upper_char c))) = true).
  { intros Hc. rewrite Hc in E. cbn in E. now apply negb_true_iff. }
  revert c.
  apply (ascii_all (fun c => implb (negb (Ascii.eqb c "="%char))
                                   (negb (is_char "="%char (upper_char c))))).
  intros [] [] [] [] [] [] [] []; vm_compute; reflexivity.
Qed.

Lemma padding_multiple n :
  0 <= n -> (n + (8 - n mod 8) mod 8) mod 8 = 0.
Proof.
  intros Hn. pose proof (Z.mod_pos_bound n 8 ltac:(lia)).
  pose proof (Z.div_mod n 8 ltac:(lia)).
  destruct (Z.eq_dec (n mod 8) 0) as [E|E].
  - rewrite E. change ((8 - 0) mod 8) with 0. now rewrite Z.add_0_r.
  - rewrite (Z.mod_small (8 - n mod 8)) by lia.
    replace (n + (8 - n mod 8)) with ((n / 8 + 1) * 8) by lia.
    apply Z.mod_mul. lia.
Qed.

End CodecMore.

(** X1. The whole pipeline is the identity on every message that does
    not end with the filler byte ['_'] (the empty message included), for
    every [chunk_size > 0]. *)
Theorem pipeline_round_trip (m : bytes) (chunk_size : Z) :
  0 < chunk_size -> (forall m', m <> m' ++ ["_"%byte]) ->
  exists cs,
    Encoder.chunk_message m chunk_size = Some cs
    /\ Decoder.decode_payload_chunks (map Encoder.encode_chunk cs) = Some m.
Proof.
  intros Hk Hm. destruct m as [|b m].
  - exists [times Encoder.filler chunk_size]. split.
    + unfold Encoder.chunk_message.
      replace (chunk_size =? 0) with false by (symmetry; apply Z.eqb_neq; lia).
      unfold range. replace (0 <? chunk_size) with true
        by (symmetry; now apply Z.ltb_lt).
      reflexivity.
    + unfold Decoder.decode_payload_chunks. rewrite join_decoded_encoded.
      cbn [concat]. rewrite app_nil_r. unfold Decoder.strip_padding, times.
      now rewrite rstrip_repeat.
  - destruct (pipeline_result (b :: m) chunk_size Hk) as [cs [E1 E2]];
      [discriminate|].
    exists cs. split; [exact E1|]. now rewrite E2, strip_padding_no_filler.
Qed.

Lemma pipeline_round_trip_witness :
  exists cs,
    Encoder.chunk_message (blit "hello world") 4 = Some cs
    /\ Decoder.decode_payload_chunks (map Encoder.encode_chunk cs)
       = Some (blit "hello world").
Proof.
  apply (pipeline_round_trip (blit "hello world") 4); [reflexivity|].
  intros m' E. apply (f_equal (@rev _)) in E. rewrite rev_app_distr in E.
  vm_compute in E. discriminate.
Defined.

(** X2. [encode_chunk] returns DNS-safe text: only the characters
    a-z and 2-7 (no padding, no dot, no upper case), and exactly
    [ceil(8 * len(chunk) / 5)] of them. *)
Theorem encode_chunk_shape (chunk : bytes) :
  forallb is_b32_lower (Encoder.encode_chunk chunk) = true
  /\ len (Encoder.encode_chunk chunk) = ceil_div (8 * len chunk) 5.
Proof. apply encode_chunk_shape_any. Qed.

(** X3. A chunk of 1 to 39 bytes encodes to at most 63 characters, so
    [split_into_labels] with the DNS limit keeps its encoding as one
    label. *)
Theorem short_chunk_single_label (chunk : bytes) :
  0 < len chunk <= 39 ->
  Encoder.split_into_labels (Encoder.encode_chunk chunk) 63
  = Some [Encoder.encode_chunk chunk].
Proof.
  intros Hc. destruct (encode_chunk_shape_any chunk) as [_ L].
  assert (B : 0 < len (Encoder.encode_chunk chunk) <= 63).
  { rewrite L.
    destruct (ceil_div_spec (8 * len chunk) 5 (ceil_div (8 * len chunk) 5))
      as [H _]; [lia|]. specialize (H eq_refl). lia. }
  destruct (split_labels_concat (Encoder.encode_chunk chunk) 63) as [segs [E [_ S]]];
    [lia|].
  rewrite E. f_equal. rewrite S.
  destruct (Encoder.encode_chunk chunk) as [|c e] eqn:Ee;
    [unfold len in B; cbn in B; lia|].
  apply chunks_short; [discriminate|]. unfold len in B. lia.
Qed.

Lemma short_chunk_single_label_witness :
  Encoder.split_into_labels (Encoder.encode_chunk (blit "hello wo")) 63
  = Some [Encoder.encode_chunk (blit "hello wo")].
Proof.
  apply (short_chunk_single_label (blit "hello wo")).
  split; [reflexivity|discriminate].
Defined.

(** X4. Splitting an encoded chunk into labels of any width, joining
    the labels with dots and decoding gives the chunk back. *)
Theorem multi_label_round_trip (chunk : bytes) (max_label_len : Z) :
  0 < max_label_len ->
  exists labels,
    Encoder.split_into_labels (Encoder.encode_chunk chunk) max_label_len
    = Some labels
    /\ Decoder.decode_labels (join (lit ".") labels) = Some chunk.
Proof.
  intros Hk.
  destruct (split_labels_concat (Encoder.encode_chunk chunk) max_label_len Hk)
    as [segs [E [C _]]].
  exists segs. split; [exact E|].
  rewrite (decode_labels_dots _ (Encoder.encode_chunk chunk)).
  - apply decode_labels_encode_chunk.
  - change (lit ".") with ["."%char]. now rewrite remove_char_join, C.
Qed.

Lemma multi_label_round_trip_witness :
  exists labels,
    Encoder.split_into_labels (Encoder.encode_chunk (blit "hello world")) 5
    = Some labels
    /\ Decoder.decode_labels (join (lit ".") labels) = Some (blit "hello world").
Proof. apply (multi_label_round_trip (blit "hello world") 5). reflexivity. Defined.

(** X5. [decode_labels] raises on any ASCII text with a character that
    is neither a dot, nor [=], nor (after upper-casing) a letter A-Z or
    a digit 2-7. *)
Theorem decode_labels_rejects_bad_character (labels : str) (c : ascii) :
  is_ascii_text labels = true ->
  In c labels -> c <> "."%char -> c <> "="%char ->
  Base32.b32rev (upper_char c) = None ->
  Decoder.decode_labels labels = None.
Proof.
  intros _ Hin Hdot Hpad Hbad. unfold Decoder.decode_labels.
  set (clean := upper (remove_char "."%char labels)).
  set (padded := clean ++ times "="%char ((8 - len clean mod 8) mod 8)).
  assert (Hc : In (upper_char c) clean).
  { unfold clean, upper. apply in_map. unfold remove_char.
    apply filter_In. split; [exact Hin|].
    apply negb_true_iff. now apply Ascii.eqb_neq. }
  assert (Hs : In (upper_char c) (rstrip (is_char "="%char) padded)).
  { unfold padded, times. rewrite rstrip_app_repeat by reflexivity.
    destruct (rstrip_prefix (is_char "="%char) clean) as [t [Et Ht]].
    rewrite Et in Hc. apply in_app_or in Hc. destruct Hc as [Hc|Hc]; [exact Hc|].
    rewrite forallb_forall in Ht. specialize (Ht _ Hc).
    now rewrite upper_char_not_pad in Ht. }
  unfold Base32.b32decode.
  destruct (negb (len padded mod 8 =? 0)); [reflexivity|].
  rewrite b32decode_loop_chunks.
  rewrite (decode_ws_bad _ (upper_char c)); trivial.
  rewrite concat_chunks by lia. exact Hs.
Qed.

Lemma decode_labels_rejects_bad_character_witness :
  Decoder.decode_labels (lit "nbswy3d1") = None.
Proof.
  apply (decode_labels_rejects_bad_character (lit "nbswy3d1") "1"%char);
    [reflexivity|vm_compute; tauto|discriminate|discriminate|reflexivity].
Defined.

(** X6. [decode_labels] raises on any ASCII text without [=] whose
    length, dots not counted, is 1, 3 or 6 modulo 8: no base32 encoding
    has such a length.  The end marker's label [end] is one. *)
Theorem decode_labels_rejects_bad_length (labels : str) :
  is_ascii_text labels = true ->
  forallb (fun c => negb (Ascii.eqb c "="%char)) labels = true ->
  In (len (remove_char "."%char labels) mod 8) [1; 3; 6] ->
  Decoder.decode_labels labels = None.
Proof.
  intros _ Hnp Hlen. unfold Decoder.decode_labels.
  set (clean := upper (remove_char "."%char labels)).
  assert (Lc : len clean = len (remove_char "."%char labels))
    by (unfold clean, upper, len; now rewrite length_map).
  assert (Hclean : rstrip (is_char "="%char) clean = clean).
  { apply rstrip_all_false. unfold clean, upper, remove_char.
    rewrite forallb_forall in *. intros x Hx. apply in_map_iff in Hx.
    destruct Hx as [y [<- Hy]]. apply filter_In in Hy. destruct Hy as [Hy _].
    specialize (Hnp y Hy). apply negb_true_iff in Hnp.
    apply Ascii.eqb_neq in Hnp. now rewrite upper_char_not_pad. }
  rewrite <- Lc in Hlen.
  set (p := (8 - len clean mod 8) mod 8).
  assert (Hp : In p [7; 5; 2]).
  { unfold p. cbn [In] in *.
    destruct Hlen as [<-|[<-|[<-|[]]]]; vm_compute; tauto. }
  unfold Base32.b32decode, times.
  rewrite rstrip_app_repeat, Hclean by reflexivity.
  replace (len (clean ++ repeat "="%char (Z.to_nat p)) mod 8) with 0.
  2:{ rewrite len_app. unfold len at 2. rewrite repeat_length.
      assert (0 <= p) by (cbn [In] in Hp; lia).
      rewrite Z2Nat.id by trivial. symmetry. apply padding_multiple.
      unfold len. lia. }
  cbn [Z.eqb negb].
  destruct (Base32.decode_loop clean (range 0 (len clean) 8) [] 0)
    as [[decoded acc]|]; [|reflexivity].
  replace (len (clean ++ repeat "="%char (Z.to_nat p)) - len clean) with p.
  2:{ rewrite len_app. unfold len at 2. rewrite repeat_length.
      cbn [In] in Hp. lia. }
  cbn [In] in Hp. destruct Hp as [<-|[<-|[<-|[]]]]; reflexivity.
Qed.

Lemma decode_labels_rejects_bad_length_witness :
  Decoder.decode_labels (lit "end") = None.
Proof.
  apply (decode_labels_rejects_bad_length (lit "end"));
    [reflexivity|reflexivity|vm_compute; tauto].
Defined.

(** * The scripts' helpers and the zone generator's copies *)

Section ScriptFacts.

(** What [chunk_message] returns for [chunk_size > 0]: chunks of that
    size whose concatenation is the message followed by filler. *)
Lemma chunk_message_facts (m : list byte) (k : Z) :
  0 < k ->
  exists cs j,
    Encoder.chunk_message m k = Some cs
    /\ cs <> []
    /\ Forall (fun c => len c = k) cs
    /\ concat cs = m ++ repeat Encoder.filler j.
Proof.
  intros Hk. unfold Encoder.chunk_message.
  replace (k =? 0) with false by (symmetry; apply Z.eqb_neq; lia).
  rewrite (range_chunks k m (Encoder.pad_chunk k) Hk).
  destruct m as [|b m].
  - exists [times Encoder.filler k], (Z.to_nat k). cbn [chunks windows length map].
    repeat split; [discriminate| |cbn; now rewrite app_nil_r].
    constructor; [|constructor]. unfold len. rewrite times_length. lia.
  - remember (b :: m) as s eqn:Hs.
    destruct (concat_padded_chunks s k Hk) as [j Ej].
    exists (map (Encoder.pad_chunk k) (chunks (Z.to_nat k) s)), j.
    assert (N : chunks (Z.to_nat k) s <> []).
    { intros E. apply (f_equal (@concat _)) in E.
      rewrite concat_chunks in E by lia. subst s. discriminate. }
    repeat split; trivial.
    + destruct (chunks (Z.to_nat k) s); [congruence|reflexivity].
    + destruct (chunks (Z.to_nat k) s); [congruence|discriminate].
    + apply Forall_map. eapply Forall_impl; [|apply (chunks_bound (Z.to_nat k) s)].
      * intros w Hw. cbv beta in Hw. apply pad_chunk_length; lia.
      * lia.
Qed.

Lemma fold_decode_step_app chunks1 chunks2 acc :
  fold_left Prime.decode_step (chunks1 ++ chunks2) acc
  = fold_left Prime.decode_step chunks2 (fold_left Prime.decode_step chunks1 acc).
Proof. apply fold_left_app. Qed.

Lemma fold_decode_step_encoded (cs : list (list byte)) acc :
  fold_left Prime.decode_step (map Encoder.encode_chunk cs) acc
  = acc ++ concat cs.
Proof.
  revert acc. induction cs as [|c cs IH]; intros acc.
  - cbn. now rewrite app_nil_r.
  - cbn [map fold_left concat].
    replace (Prime.decode_step acc (Encoder.encode_chunk c)) with (acc ++ c)
      by (unfold Prime.decode_step; now rewrite decode_labels_encode_chunk).
    rewrite IH. now rewrite app_assoc.
Qed.

Lemma strip_padding_filler (m : list byte) j :
  Decoder.strip_padding (m ++ repeat Encoder.filler j) (blit "_")
  = Decoder.strip_padding m (blit "_").
Proof. unfold Decoder.strip_padding. now apply rstrip_app_repeat. Qed.

End ScriptFacts.

(** X7. [decode_payload] (prime.py, verify_synthesis.py) never aborts
    on a chunk that fails to decode: the result is the one without that
    chunk, wherever it stands. *)
Theorem decode_payload_skips_failed_chunk
  (utf8_decode : bytes -> option str) (utf8_decode_replace : bytes -> str)
  (before after : list str) (bad : str) :
  Decoder.decode_labels bad = None ->
  Prime.decode_payload utf8_decode utf8_decode_replace (before ++ bad :: after)
  = Prime.decode_payload utf8_decode utf8_decode_replace (before ++ after).
Proof.
  intros Hbad. unfold Prime.decode_payload.
  rewrite !fold_decode_step_app. cbn [fold_left].
  assert (E : forall acc, Prime.decode_step acc bad = acc)
    by (intros acc; unfold Prime.decode_step; now rewrite Hbad).
  now rewrite E.
Qed.

Lemma decode_payload_skips_failed_chunk_witness :
  Prime.decode_payload (fun _ => None) (fun _ => [])
    ([lit "nbswy3dp"] ++ lit "end" :: [lit "nbswy3dp"])
  = Prime.decode_payload (fun _ => None) (fun _ => [])
      ([lit "nbswy3dp"] ++ [lit "nbswy3dp"]).
Proof.
  apply (decode_payload_skips_failed_chunk (fun _ => None) (fun _ => [])
           [lit "nbswy3dp"] [lit "nbswy3dp"] (lit "end")).
  reflexivity.
Defined.

(** X8. [decode_payload] inverts the encoder up to trailing filler:
    for every message and every [chunk_size > 0], [decode_payload] of
    the encoded chunks of the message returns the text that
    [bytes.decode] gives for the message without its trailing ['_']
    bytes (strict decoding if it succeeds, else with replacement); a
    label [end] after the encoded chunks does not change the result. *)
Theorem decode_payload_of_encoded_message
  (utf8_decode : bytes -> option str) (utf8_decode_replace : bytes -> str)
  (m : bytes) (chunk_size : Z) :
  0 < chunk_size ->
  exists cs,
    Encoder.chunk_message m chunk_size = Some cs
    /\ Prime.decode_payload utf8_decode utf8_decode_replace
         (map Encoder.encode_chunk cs)
       = match utf8_decode (Decoder.strip_padding m (blit "_")) with
         | Some text => text
         | None => utf8_decode_replace (Decoder.strip_padding m (blit "_"))
         end
    /\ Prime.decode_payload utf8_decode utf8_decode_replace
         (map Encoder.encode_chunk cs ++ [lit "end"])
       = Prime.decode_payload utf8_decode utf8_decode_replace
           (map Encoder.encode_chunk cs).
Proof.
  intros Hk. destruct (chunk_message_facts m chunk_size Hk) as [cs [j [E [_ [_ C]]]]].
  exists cs. split; [exact E|]. split.
  - unfold Prime.decode_payload. rewrite fold_decode_step_encoded. cbn [app].
    now rewrite C, strip_padding_filler.
  - unfold Prime.decode_payload. rewrite fold_decode_step_app. cbn [fold_left].
    unfold Prime.decode_step at 1.
    change (Decoder.decode_labels (lit "end")) with (@None (list byte)).
    reflexivity.
Qed.

Lemma decode_payload_of_encoded_message_witness :
  exists cs,
    Encoder.chunk_message (blit "hello") 4 = Some cs
    /\ Prime.decode_payload (fun _ => None) (fun b => map ascii_of_byte b)
         (map Encoder.encode_chunk cs)
       = map ascii_of_byte (Decoder.strip_padding (blit "hello") (blit "_"))
    /\ Prime.decode_payload (fun _ => None) (fun b => map ascii_of_byte b)
         (map Encoder.encode_chunk cs ++ [lit "end"])
       = Prime.decode_payload (fun _ => None) (fun b => map ascii_of_byte b)
           (map Encoder.encode_chunk cs).
Proof.
  apply (decode_payload_of_encoded_message
           (fun _ => None) (fun b => map ascii_of_byte b) (blit "hello") 4).
  reflexivity.
Defined.

(** X9. [encode_message]: for every text whose UTF-8 encoding succeeds
    and every [chunk_size > 0], it returns at least one label, every
    label has exactly [ceil(8 * chunk_size / 5)] characters of a-z and
    2-7, and [decode_payload_chunks] of the labels gives the UTF-8 bytes
    of the text without their trailing ['_'] bytes; when the encoding
    raises, [encode_message] raises. *)
Theorem encode_message_round_trip
  (text : Type) (utf8_encode : text -> option bytes)
  (message : text) (chunk_size : Z) :
  0 < chunk_size ->
  match utf8_encode message with
  | None => EncoderText.encode_message text utf8_encode message chunk_size = None
  | Some message_bytes =>
      exists labels,
        EncoderText.encode_message text utf8_encode message chunk_size
        = Some labels
        /\ labels <> []
        /\ Forall (fun l => len l = ceil_div (8 * chunk_size) 5
                            /\ forallb is_b32_lower l = true) labels
        /\ Decoder.decode_payload_chunks labels
           = Some (Decoder.strip_padding message_bytes (blit "_"))
  end.
Proof.
  intros Hk. unfold EncoderText.encode_message.
  destruct (utf8_encode message) as [message_bytes|]; [|reflexivity].
  destruct (chunk_message_facts message_bytes chunk_size Hk)
    as [cs [j [E [N [F C]]]]].
  exists (map Encoder.encode_chunk cs). rewrite E. repeat split.
  - now destruct cs.
  - apply Forall_map. eapply Forall_impl; [|exact F].
    intros c Hc. cbv beta in Hc. destruct (encode_chunk_shape_any c) as [A L].
    split; [now rewrite L, Hc|exact A].
  - unfold Decoder.decode_payload_chunks.
    now rewrite join_decoded_encoded, C, strip_padding_filler.
Qed.

Lemma encode_message_round_trip_witness :
  exists labels,
    EncoderText.encode_message string (fun s => Some (blit s)) "hello"%string 8
    = Some labels
    /\ labels <> []
    /\ Forall (fun l => len l = ceil_div (8 * 8) 5
                        /\ forallb is_b32_lower l = true) labels
    /\ Decoder.decode_payload_chunks labels
       = Some (Decoder.strip_padding (blit "hello") (blit "_")).
Proof.
  apply (encode_message_round_trip string (fun s => Some (blit s)) "hello"%string 8).
  reflexivity.
Defined.

(** X10. The zone generator's own [chunk_message]
    (auth/generate_zone.py) returns the chunks of the library's
    [chunk_message] for every non-empty message and [chunk_size > 0];
    for the empty message it returns no chunk at all, where the
    library returns one chunk of filler. *)
Theorem zone_chunker_agreement (m : bytes) (chunk_size : Z) :
  0 < chunk_size ->
  (m <> [] -> AuthZone.chunk_message m chunk_size
              = Encoder.chunk_message m chunk_size)
  /\ AuthZone.chunk_message [] chunk_size = Some []
  /\ Encoder.chunk_message [] chunk_size
     = Some [repeat "_"%byte (Z.to_nat chunk_size)].
Proof.
  intros Hk.
  assert (R0 : range 0 (len (@nil byte)) chunk_size = []).
  { unfold range. now replace (0 <? chunk_size) with true
      by (symmetry; now apply Z.ltb_lt). }
  assert (EA : AuthZone.chunk_message m chunk_size
               = Some (map (Encoder.pad_chunk chunk_size)
                           (chunks (Z.to_nat chunk_size) m))).
  { unfold AuthZone.chunk_message.
    replace (chunk_size =? 0) with false by (symmetry; apply Z.eqb_neq; lia).
    f_equal.
    rewrite <- (range_chunks chunk_size m (Encoder.pad_chunk chunk_size) Hk).
    apply map_ext. intros i. reflexivity. }
  split; [|split].
  - intros Hm. rewrite EA. unfold Encoder.chunk_message.
    replace (chunk_size =? 0) with false by (symmetry; apply Z.eqb_neq; lia).
    rewrite (range_chunks chunk_size m (Encoder.pad_chunk chunk_size) Hk).
    destruct (chunks (Z.to_nat chunk_size) m) eqn:E; [|reflexivity].
    apply (f_equal (@concat _)) in E. rewrite concat_chunks in E by lia.
    now subst.
  - unfold AuthZone.chunk_message.
    replace (chunk_size =? 0) with false by (symmetry; apply Z.eqb_neq; lia).
    now rewrite R0.
  - unfold Encoder.chunk_message.
    replace (chunk_size =? 0) with false by (symmetry; apply Z.eqb_neq; lia).
    now rewrite R0.
Qed.

Lemma zone_chunker_agreement_witness :
  (blit "hello world" <> [] ->
   AuthZone.chunk_message (blit "hello world") 4
   = Encoder.chunk_message (blit "hello world") 4)
  /\ AuthZone.chunk_message [] 4 = Some []
  /\ Encoder.chunk_message [] 4 = Some [repeat "_"%byte (Z.to_nat 4)].
Proof. apply (zone_chunker_agreement (blit "hello world") 4). reflexivity. Defined.

(** * Further properties of the names *)

Section NameMore.
Import Ordering.

Lemma lower_upper_char c : lower_char (upper_char c) = lower_char c.
Proof.
  apply Ascii.eqb_eq. revert c.
  apply (ascii_all (fun c => Ascii.eqb (lower_char (upper_char c)) (lower_char c))).
  intros [] [] [] [] [] [] [] []; vm_compute; reflexivity.
Qed.

Lemma upper_char_is_dot c : is_dot (upper_char c) = is_dot c.
Proof.
  enough (H : Bool.eqb (is_dot (upper_char c)) (is_dot c) = true)
    by now apply Bool.eqb_prop.
  revert c. apply (ascii_all (fun c => Bool.eqb (is_dot (upper_char c)) (is_dot c))).
  intros [] [] [] [] [] [] [] []; vm_compute; reflexivity.
Qed.

Lemma lower_upper s : lower (upper s) = lower s.
Proof.
  unfold lower, upper. rewrite map_map. apply map_ext, lower_upper_char.
Qed.

Lemma rstrip_upper s : rstrip is_dot (upper s) = upper (rstrip is_dot s).
Proof.
  induction s as [|c s IH]; [reflexivity|].
  cbn [upper map rstrip]. fold (upper s). rewrite IH.
  destruct (rstrip is_dot s); cbn [upper map]; [|reflexivity].
  rewrite upper_char_is_dot. now destruct (is_dot c).
Qed.

Lemma endswith_iff s p : endswith s p = true <-> exists x, s = x ++ p.
Proof.
  split.
  - unfold endswith. intros H. apply andb_prop in H. destruct H as [_ H].
    apply str_eqb_eq in H. exists (firstn (length s - length p) s).
    rewrite <- H at 2. symmetry. apply firstn_skipn.
  - intros [x ->]. apply endswith_app.
Qed.

Lemma endswith_lower a b :
  endswith a b = true -> endswith (lower a) (lower b) = true.
Proof.
  intros H. apply endswith_iff in H. destruct H as [x ->].
  rewrite lower_app. apply endswith_app.
Qed.

Lemma drop_last_map {A B} (f : A -> B) n (s : list A) :
  drop_last n (map f s) = map f (drop_last n s).
Proof. unfold drop_last. now rewrite length_map, firstn_map. Qed.

Lemma split_lower s : split "."%char (lower s) = map lower (split "."%char s).
Proof.
  induction s as [|c s IH]; [reflexivity|].
  cbn [lower map split]. fold (lower s). rewrite IH.
  pose proof (lower_char_is_dot c) as E. unfold is_dot, is_char in E.
  rewrite (Ascii.eqb_sym (lower_char c)), E, (Ascii.eqb_sym "."%char).
  destruct (Ascii.eqb c "."%char); [reflexivity|].
  pose proof (split_nonempty "."%char s) as N.
  destruct (split "."%char s); [congruence|reflexivity].
Qed.

Lemma join_lower parts : lower (join dot parts) = join dot (map lower parts).
Proof.
  induction parts as [|p [|p' r] IH]; [reflexivity|reflexivity|].
  change (join dot (p :: p' :: r)) with (p ++ dot ++ join dot (p' :: r)).
  rewrite !lower_app, IH. reflexivity.
Qed.

(** The first label of a name is not changed by what follows a dot. *)
Lemma first_label_cons c x s :
  hd [] (split c (x :: s))
  = if Ascii.eqb x c then [] else x :: hd [] (split c s).
Proof.
  cbn [split]. destruct (Ascii.eqb x c); [reflexivity|].
  pose proof (split_nonempty c s) as N.
  destruct (split c s); [congruence|reflexivity].
Qed.

Lemma first_label_app c a t :
  hd [] (split c (a ++ c :: t)) = hd [] (split c a).
Proof.
  induction a as [|x a IH].
  - cbn. now rewrite Ascii.eqb_refl.
  - cbn [app]. rewrite !first_label_cons, IH. reflexivity.
Qed.

Lemma first_label_dots s :
  hd [] (split "."%char (rstrip is_dot s)) = hd [] (split "."%char s).
Proof.
  destruct (rstrip_prefix is_dot s) as [t [E Ht]].
  rewrite E at 2. destruct t as [|x t]; [now rewrite app_nil_r|].
  cbn [forallb] in Ht. apply andb_prop in Ht. destruct Ht as [Hx _].
  unfold is_dot, is_char in Hx. apply Ascii.eqb_eq in Hx. subst x.
  now rewrite first_label_app.
Qed.

Lemma match_n_digits_digits ds :
  ds <> [] -> forallb is_digit ds = true ->
  match_n_digits ("n"%char :: ds) = Some ds.
Proof.
  intros N D. unfold match_n_digits. rewrite Ascii.eqb_refl.
  destruct (rev ds) as [|x r] eqn:E.
  - destruct ds; [congruence|]. now rewrite D.
  - assert (Hx : is_digit x = true).
    { rewrite forallb_forall in D. apply D, in_rev. rewrite E. now left. }
    rewrite (digit_not_newline x Hx).
    destruct ds; [congruence|]. now rewrite D.
Qed.

Lemma match_n_digits_head s ds :
  match_n_digits s = Some ds -> startswith s (lit "n") = true.
Proof.
  unfold match_n_digits. destruct s as [|c rest]; [discriminate|].
  destruct (Ascii.eqb c "n"%char) eqn:E; [|discriminate].
  intros _. change (lit "n") with ["n"%char]. cbn [startswith].
  rewrite E. now destruct rest.
Qed.

(** The name that [node_name_for_index] builds, without its trailing
    dots. *)
Lemma node_name_rstrip i p zone (absolute : bool) :
  rstrip is_dot zone <> [] ->
  rstrip is_dot (node_name_for_index i p zone absolute)
  = (index_label i ++ dot ++ p) ++ dot ++ rstrip is_dot zone.
Proof.
  intros Hz. unfold node_name_for_index. fold (index_label i).
  assert (E : rstrip is_dot ((index_label i ++ dot ++ p) ++ dot ++ rstrip is_dot zone)
              = (index_label i ++ dot ++ p) ++ dot ++ rstrip is_dot zone).
  { rewrite rstrip_app_keep; [f_equal|];
      (rewrite rstrip_app_keep; rewrite rstrip_idem; [|exact Hz]).
    - reflexivity.
    - discriminate. }
  destruct absolute.
  - replace ((index_label i ++ dot ++ p ++ dot ++ rstrip is_dot zone) ++ dot)
      with (((index_label i ++ dot ++ p) ++ dot ++ rstrip is_dot zone) ++ dot)
      by now rewrite <- !app_assoc.
    now rewrite rstrip_dot_app.
  - replace (index_label i ++ dot ++ p ++ dot ++ rstrip is_dot zone)
      with ((index_label i ++ dot ++ p) ++ dot ++ rstrip is_dot zone)
      by now rewrite <- !app_assoc.
    exact E.
Qed.

Lemma format_04d_injective i j :
  0 <= i -> 0 <= j -> format_04d i = format_04d j -> i = j.
Proof.
  intros Hi Hj E. destruct (format_04d_spec i Hi) as [_ [_ Vi]].
  destruct (format_04d_spec j Hj) as [_ [_ Vj]]. congruence.
Qed.

Lemma index_label_lt_any i j :
  0 <= i < j ->
  length (format_04d i) = length (format_04d j) ->
  str_lt_strict (index_label i) (index_label j) = true.
Proof.
  intros Hij L.
  destruct (format_04d_spec i) as [D [_ V]]; [lia|].
  destruct (format_04d_spec j) as [D' [_ V']]; [lia|].
  unfold index_label. cbn [str_lt_strict]. rewrite Z.ltb_irrefl, Z.eqb_refl.
  apply digits_lt_strict; trivial. lia.
Qed.

End NameMore.

Section BuiltNames.
Import Ordering.

(** Parsing a built name, whatever the case of its payload and zone. *)
Lemma parse_built_name i p zone (absolute : bool) :
  0 <= i -> rstrip is_dot zone <> [] ->
  parse_node_name (node_name_for_index i p zone absolute) zone
  = Some (i, lower p).
Proof.
  intros Hi Hz. destruct (format_04d_spec i Hi) as [_ [_ V]].
  unfold parse_node_name. rewrite node_name_rstrip by trivial.
  rewrite (lower_app (index_label i ++ dot ++ p)), (lower_app dot).
  change (lower dot) with dot.
  rewrite endswith_app. cbn [negb]. rewrite drop_last_exact.
  rewrite !lower_app, index_label_lower by trivial.
  change (lower dot) with dot. unfold dot. cbn [app].
  rewrite split_app_sep by now apply index_label_no_dot.
  pose proof (split_nonempty "."%char (lower p)) as N.
  destruct (split "."%char (lower p)) as [|h r] eqn:S; [congruence|].
  cbn [length Nat.ltb Nat.leb hd tl]. rewrite match_index_label by trivial.
  now rewrite V, <- S, join_split.
Qed.




End BuiltNames.



Section DigitFacts.

Lemma isdigit_of_digits s :
  forallb is_digit s = true -> forallb PyText.isdigit_char s = true.
Proof.
  intros H. rewrite forallb_forall in *. intros c Hc.
  unfold PyText.isdigit_char. now rewrite (H c Hc).
Qed.

(** On ASCII characters [str.isdigit] accepts the digits 0-9 only. *)
Lemma ascii_isdigit_char c :
  (code c <? 128) = true -> PyText.isdigit_char c = true -> is_digit c = true.
Proof.
  unfold PyText.isdigit_char. intros Ha H. apply Z.ltb_lt in Ha.
  destruct (is_digit c); [reflexivity|]. cbn [orb] in H.
  apply orb_prop in H. destruct H as [H|H]; [apply orb_prop in H; destruct H as [H|H]|];
    apply Z.eqb_eq in H; lia.
Qed.

Lemma ascii_isdigit s :
  is_ascii_text s = true -> forallb PyText.isdigit_char s = true ->
  forallb is_digit s = true.
Proof.
  unfold is_ascii_text. intros Ha H. rewrite forallb_forall in *.
  intros c Hc. apply ascii_isdigit_char; auto.
Qed.

Lemma ascii_app a b :
  is_ascii_text (a ++ b) = true <->
  is_ascii_text a = true /\ is_ascii_text b = true.
Proof. unfold is_ascii_text. rewrite forallb_app. apply andb_true_iff. Qed.

Lemma ascii_rstrip f s :
  is_ascii_text s = true -> is_ascii_text (rstrip f s) = true.
Proof.
  intros H. destruct (rstrip_prefix f s) as [t [E _]].
  rewrite E in H. now apply ascii_app in H.
Qed.

Lemma ascii_drop_last n s :
  is_ascii_text s = true -> is_ascii_text (drop_last n s) = true.
Proof.
  intros H. unfold drop_last. rewrite <- (firstn_skipn (length s - n) s) in H.
  now apply ascii_app in H.
Qed.

Lemma ascii_first_label c s :
  is_ascii_text s = true -> is_ascii_text (hd [] (split c s)) = true.
Proof.
  induction s as [|x s IH]; [reflexivity|]. intros H.
  rewrite first_label_cons. unfold is_ascii_text in *. cbn [forallb] in H.
  apply andb_prop in H. destruct H as [Hx Hs].
  destruct (Ascii.eqb x c); [reflexivity|]. cbn [forallb].
  now rewrite Hx, IH.
Qed.

End DigitFacts.

(** X13. [extract_payload_labels] (decoder.py) returns the payload of
    every name built by [node_name_for_index], absolute or not, as it
    was given (case kept), for every [index >= 0] and every zone that is
    not made of dots only. *)
Theorem extract_payload_labels_inverse
  (index : Z) (payload zone : str) (absolute : bool) :
  0 <= index -> rstrip Ordering.is_dot zone <> [] ->
  DecoderNames.extract_payload_labels
    (Ordering.node_name_for_index index payload zone absolute) zone
  = Some payload.
Proof.
  intros Hi Hz. destruct (format_04d_spec index Hi) as [D [N _]].
  unfold DecoderNames.extract_payload_labels.
  rewrite node_name_rstrip by trivial.
  rewrite endswith_app. cbn [negb].
  replace (length (rstrip Ordering.is_dot zone) + 1)%nat
    with (length (Ordering.dot ++ rstrip Ordering.is_dot zone))
    by (cbn [Ordering.dot app length]; lia).
  rewrite drop_last_exact. unfold Ordering.dot. cbn [app].
  rewrite split_app_sep by now apply index_label_no_dot.
  pose proof (split_nonempty "."%char payload) as Np.
  destruct (split "."%char payload) as [|h r] eqn:S; [congruence|].
  cbn [length Nat.ltb Nat.leb hd tl].
  unfold index_label. change (lit "n") with ["n"%char].
  cbn [startswith tl]. rewrite Ascii.eqb_refl.
  replace (startswith (format_04d index) []) with true
    by now destruct (format_04d index).
  unfold PyText.isdigit. rewrite (isdigit_of_digits _ D).
  destruct (format_04d index); [congruence|]. cbn [andb negb].
  now rewrite <- S, join_split.
Qed.

Lemma extract_payload_labels_inverse_witness :
  DecoderNames.extract_payload_labels
    (Ordering.node_name_for_index 1 (lit "NBSWY3DP.abc") (lit "Zone.Test.") true)
    (lit "Zone.Test.")
  = Some (lit "NBSWY3DP.abc").
Proof.
  apply (extract_payload_labels_inverse 1 (lit "NBSWY3DP.abc") (lit "Zone.Test.") true);
    [lia|discriminate].
Defined.

Lemma parse_implies_payload (name zone : list ascii) (index : Z) (payload : list ascii) :
  Ordering.parse_node_name name zone = Some (index, payload) ->
  Parser.extract_payload_from_next_name name zone = Some payload.
Proof.
  unfold Ordering.parse_node_name, Parser.extract_payload_from_next_name.
  rewrite !rstrip_lower.
  set (z1 := rstrip Ordering.is_dot zone).
  set (n1 := lower (rstrip Ordering.is_dot name)).
  destruct (endswith n1 (Ordering.dot ++ lower z1)) eqn:E; cbn [negb];
    [|discriminate].
  assert (E2 : endswith n1 (lower z1) = true).
  { apply endswith_iff in E. destruct E as [x ->].
    rewrite app_assoc. apply endswith_app. }
  rewrite E2. cbn [negb].
  set (labels := split "."%char
                   (drop_last (length (Ordering.dot ++ lower z1)) n1)).
  destruct (length labels <? 2)%nat eqn:L; [discriminate|].
  destruct (match_n_digits (hd [] labels)) as [ds|] eqn:M; [|discriminate].
  intros H. injection H as _ <-.
  rewrite (match_n_digits_head _ _ M).
  destruct labels as [|l0 [|l1 r]]; try discriminate. reflexivity.
Qed.

(** X14. Whatever [parse_node_name] accepts,
    [extract_payload_from_next_name] accepts too, with the same
    payload: the looser parser never loses a node name. *)
Theorem parsed_name_has_payload (name zone : str) (index : Z) (payload : str) :
  Ordering.parse_node_name name zone = Some (index, payload) ->
  Parser.extract_payload_from_next_name name zone = Some payload.
Proof.
  apply parse_implies_payload.
Qed.

Lemma parsed_name_has_payload_witness :
  Parser.extract_payload_from_next_name
    (lit "N0001.Abc.Def.ZONE.test.") (lit "zone.test.")
  = Some (lit "abc.def").
Proof.
  apply (parsed_name_has_payload
           (lit "N0001.Abc.Def.ZONE.test.") (lit "zone.test.") 1 (lit "abc.def")).
  reflexivity.
Defined.

(** X15. On ASCII names, whatever [extract_payload_labels]
    (decoder.py, case sensitive) accepts, [parse_node_name] accepts
    too, and its payload is the lower-cased one. *)
Theorem extracted_labels_parse (fqdn zone payload : str) :
  is_ascii_text fqdn = true ->
  DecoderNames.extract_payload_labels fqdn zone = Some payload ->
  exists index,
    Ordering.parse_node_name fqdn zone = Some (index, lower payload).
Proof.
  intros Hascii.
  unfold DecoderNames.extract_payload_labels, Ordering.parse_node_name.
  set (z1 := rstrip Ordering.is_dot zone).
  set (f1 := rstrip Ordering.is_dot fqdn).
  destruct (endswith f1 (Ordering.dot ++ z1)) eqn:E; cbn [negb]; [|discriminate].
  apply endswith_lower in E. rewrite lower_app in E.
  change (lower Ordering.dot) with Ordering.dot in E. rewrite E. cbn [negb].
  replace (length (Ordering.dot ++ lower z1)) with (length z1 + 1)%nat
    by (unfold lower; cbn [Ordering.dot app length]; rewrite length_map; lia).
  assert (EP : split "."%char (drop_last (length z1 + 1) (lower f1))
               = map lower (split "."%char (drop_last (length z1 + 1) f1))).
  { rewrite <- split_lower. f_equal. apply drop_last_map. }
  rewrite EP.
  assert (Hl0 : is_ascii_text
                  (hd [] (split "."%char (drop_last (length z1 + 1) f1))) = true)
    by now apply ascii_first_label, ascii_drop_last, ascii_rstrip.
  set (labels := split "."%char (drop_last (length z1 + 1) f1)) in *.
  rewrite length_map.
  destruct (length labels <? 2)%nat eqn:L; [discriminate|].
  destruct labels as [|l0 rest]; [discriminate|]. cbn [hd tl map] in *.
  destruct (startswith l0 (lit "n") && PyText.isdigit (tl l0)) eqn:S;
    cbn [negb]; [|discriminate].
  intros H. injection H as <-.
  apply andb_prop in S. destruct S as [S1 S2].
  destruct l0 as [|c ds]; [discriminate|].
  change (lit "n") with ["n"%char] in S1. cbn [startswith] in S1.
  apply andb_prop in S1. destruct S1 as [S1 _]. apply Ascii.eqb_eq in S1.
  subst c. cbn [tl] in S2. unfold PyText.isdigit in S2.
  assert (N : ds <> []) by (destruct ds; [discriminate|discriminate]).
  assert (D : forallb is_digit ds = true).
  { apply ascii_isdigit; [|destruct ds; [congruence|exact S2]].
    unfold is_ascii_text in *. cbn [forallb] in Hl0.
    apply andb_prop in Hl0. tauto. }
  assert (El : lower ("n"%char :: ds) = "n"%char :: ds).
  { cbn [lower map]. f_equal.
    now apply (lower_fixed is_digit); [apply lower_char_digit|]. }
  rewrite El, match_n_digits_digits by trivial.
  exists (int_of_digits ds). now rewrite join_lower.
Qed.

Lemma extracted_labels_parse_witness :
  exists index,
    Ordering.parse_node_name (lit "n0001.NBSW.zone.test.") (lit "zone.test")
    = Some (index, lower (lit "NBSW")).
Proof.
  apply (extracted_labels_parse (lit "n0001.NBSW.zone.test.") (lit "zone.test")
           (lit "NBSW")); reflexivity.
Defined.

Section IndexMore.
Import Ordering.

Lemma lower_char_newline c :
  Ascii.eqb (lower_char c) newline = Ascii.eqb c newline.
Proof.
  enough (H : Bool.eqb (Ascii.eqb (lower_char c) newline) (Ascii.eqb c newline)
              = true) by now apply Bool.eqb_prop.
  revert c.
  apply (ascii_all (fun c => Bool.eqb (Ascii.eqb (lower_char c) newline)
                                      (Ascii.eqb c newline))).
  intros [] [] [] [] [] [] [] []; vm_compute; reflexivity.
Qed.

Lemma lower_char_is_digit c : is_digit (lower_char c) = is_digit c.
Proof.
  enough (H : Bool.eqb (is_digit (lower_char c)) (is_digit c) = true)
    by now apply Bool.eqb_prop.
  revert c.
  apply (ascii_all (fun c => Bool.eqb (is_digit (lower_char c)) (is_digit c))).
  intros [] [] [] [] [] [] [] []; vm_compute; reflexivity.
Qed.

Lemma first_label_single L rest :
  forallb (fun x => negb (Ascii.eqb x "."%char)) L = true ->
  hd [] (split "."%char (L ++ dot ++ rest)) = L.
Proof.
  intros HL. unfold dot. cbn [app].
  now rewrite first_label_app, split_no_sep.
Qed.

Lemma hd_map_lower (parts : list (list ascii)) :
  hd [] (map lower parts) = lower (hd [] parts).
Proof. now destruct parts. Qed.

Lemma norm_upper s : rstrip is_dot (lower (upper s)) = rstrip is_dot (lower s).
Proof. now rewrite lower_upper. Qed.

Lemma norm_dot s : rstrip is_dot (lower (s ++ dot)) = rstrip is_dot (lower s).
Proof.
  rewrite lower_app. change (lower dot) with dot. apply rstrip_dot_app.
Qed.

End IndexMore.

(** X16. [extract_index_from_name] returns the index of every name
    built by [node_name_for_index] with [index >= 0], whatever the
    payload and the zone. *)
Theorem extract_index_of_node_name
  (index : Z) (payload zone : str) (absolute : bool) :
  0 <= index ->
  OrderingIndex.extract_index_from_name
    (Ordering.node_name_for_index index payload zone absolute)
  = Some index.
Proof.
  intros Hi. destruct (format_04d_spec index Hi) as [_ [_ V]].
  unfold OrderingIndex.extract_index_from_name, Ordering.node_name_for_index.
  fold (index_label index).
  assert (E : forall rest,
             hd [] (split "."%char (index_label index ++ Ordering.dot ++ rest))
             = index_label index)
    by (intros rest; apply first_label_single; now apply index_label_no_dot).
  destruct absolute; rewrite <- ?app_assoc, E, index_label_lower,
    match_index_label, V by trivial; reflexivity.
Qed.

Lemma extract_index_of_node_name_witness :
  OrderingIndex.extract_index_from_name
    (Ordering.node_name_for_index 42 (lit "payload") (lit "zone.test") true)
  = Some 42.
Proof.
  apply (extract_index_of_node_name 42 (lit "payload") (lit "zone.test") true).
  lia.
Defined.

(** X17. [extract_index_from_name] returns [None] on every probe name
    whose suffix character is not a digit, a dot or a newline, so on
    the priming name and on every verification name. *)
Theorem extract_index_of_gap_name
  (index : Z) (zone : str) (c : ascii) (absolute : bool) :
  0 <= index ->
  is_digit c = false -> c <> "."%char -> c <> newline ->
  OrderingIndex.extract_index_from_name
    (Ordering.in_gap_name index zone [c] absolute)
  = None.
Proof.
  intros Hi Hd Hc Hn.
  destruct (probe_label_facts index c Hi Hc) as [H1 [_ H3]].
  destruct (format_04d_spec index Hi) as [D [N _]].
  unfold OrderingIndex.extract_index_from_name.
  rewrite gap_name_shape, first_label_single, H3 by trivial.
  unfold index_label, match_n_digits. cbn [app]. rewrite Ascii.eqb_refl.
  rewrite rev_app_distr. cbn [rev app].
  rewrite lower_char_newline.
  replace (Ascii.eqb c newline) with false
    by (symmetry; now apply Ascii.eqb_neq).
  destruct (format_04d index ++ [lower_char c]) eqn:E.
  - now destruct (format_04d index).
  - rewrite <- E, forallb_app. cbn [forallb].
    now rewrite lower_char_is_digit, Hd, andb_false_r.
Qed.

Lemma extract_index_of_gap_name_witness :
  OrderingIndex.extract_index_from_name
    (Ordering.in_gap_name 0 (lit "zone.test") ["z"%char] true)
  = None.
Proof.
  apply (extract_index_of_gap_name 0 (lit "zone.test") "z"%char true);
    [lia|reflexivity|discriminate|discriminate].
Defined.

(** X18. The two index readers agree: when [get_next_node_index]
    (through [parse_node_name]) finds an index in a name,
    [extract_index_from_name] finds the same one without knowing the
    zone. *)
Theorem index_readers_agree (name zone : str) (index : Z) :
  OrderingIndex.get_next_node_index name zone = Some index ->
  OrderingIndex.extract_index_from_name name = Some index.
Proof.
  unfold OrderingIndex.get_next_node_index, Ordering.parse_node_name.
  set (n1 := lower (rstrip Ordering.is_dot name)).
  set (sfx := Ordering.dot ++ lower (rstrip Ordering.is_dot zone)).
  destruct (endswith n1 sfx) eqn:E; cbn [negb]; [|discriminate].
  apply endswith_iff in E. destruct E as [x Ex].
  rewrite Ex, drop_last_exact.
  destruct (length (split "."%char x) <? 2)%nat; [discriminate|].
  destruct (match_n_digits (hd [] (split "."%char x))) as [ds|] eqn:M;
    [|discriminate].
  cbn [fst]. intros H. injection H as <-.
  unfold OrderingIndex.extract_index_from_name.
  assert (F : lower (hd [] (split "."%char name)) = hd [] (split "."%char x)).
  { rewrite <- first_label_dots, <- hd_map_lower, <- split_lower.
    fold n1. rewrite Ex. unfold sfx, Ordering.dot. cbn [app].
    apply first_label_app. }
  now rewrite F, M.
Qed.

Lemma index_readers_agree_witness :
  OrderingIndex.extract_index_from_name (lit "N0007.abc.Zone.Test.") = Some 7.
Proof.
  apply (index_readers_agree (lit "N0007.abc.Zone.Test.") (lit "zone.test") 7).
  reflexivity.
Defined.

(** X19. On ASCII names, [is_name_between] does not depend on the
    letter case or on a trailing dot of any of its three arguments. *)
Theorem is_name_between_normalises (name lower_bound upper_bound : str) :
  is_ascii_text name = true ->
  is_ascii_text lower_bound = true ->
  is_ascii_text upper_bound = true ->
  Ordering.is_name_between (upper name) lower_bound upper_bound
  = Ordering.is_name_between name lower_bound upper_bound
  /\ Ordering.is_name_between name (upper lower_bound) upper_bound
     = Ordering.is_name_between name lower_bound upper_bound
  /\ Ordering.is_name_between name lower_bound (upper upper_bound)
     = Ordering.is_name_between name lower_bound upper_bound
  /\ Ordering.is_name_between (name ++ lit ".") lower_bound upper_bound
     = Ordering.is_name_between name lower_bound upper_bound
  /\ Ordering.is_name_between name (lower_bound ++ lit ".") upper_bound
     = Ordering.is_name_between name lower_bound upper_bound
  /\ Ordering.is_name_between name lower_bound (upper_bound ++ lit ".")
     = Ordering.is_name_between name lower_bound upper_bound.
Proof.
  intros _ _ _.
  unfold Ordering.is_name_between. change (lit ".") with Ordering.dot.
  rewrite !norm_upper, !norm_dot. repeat split.
Qed.

Lemma is_name_between_normalises_witness :
  Ordering.is_name_between (upper (lit "n0000z.zone.test"))
    (lit "n0000.a.zone.test") (lit "n0001.zone.test")
  = Ordering.is_name_between (lit "n0000z.zone.test")
      (lit "n0000.a.zone.test") (lit "n0001.zone.test")
  /\ Ordering.is_name_between (lit "n0000z.zone.test" ++ lit ".")
       (lit "n0000.a.zone.test") (lit "n0001.zone.test")
     = Ordering.is_name_between (lit "n0000z.zone.test")
         (lit "n0000.a.zone.test") (lit "n0001.zone.test").
Proof.
  destruct (is_name_between_normalises (lit "n0000z.zone.test")
              (lit "n0000.a.zone.test") (lit "n0001.zone.test"))
    as [H1 [_ [_ [H4 _]]]]; [reflexivity|reflexivity|reflexivity|].
  split; [exact H1|exact H4].
Defined.

(** X20. Node names sort by index: for indices [0 <= i < j < k] below
    10000, the node name of [j] is strictly between those of [i] and
    [k] for [is_name_between], whatever the payloads and the zone. *)
Theorem node_names_sort_by_index (i j k : Z) (pi pj pk zone : str) :
  0 <= i < j -> j < k < 10000 ->
  Ordering.is_name_between
    (Ordering.node_name_for_index j pj zone true)
    (Ordering.node_name_for_index i pi zone true)
    (Ordering.node_name_for_index k pk zone true)
  = true.
Proof.
  intros Hij Hjk. unfold Ordering.is_name_between.
  destruct (node_name_normal i pi zone) as [Xi [-> _]]; [lia|].
  destruct (node_name_normal j pj zone) as [Xj [-> _]]; [lia|].
  destruct (node_name_normal k pk zone) as [Xk [-> _]]; [lia|].
  apply andb_true_iff. split; apply str_lt_strict_app, index_label_lt_any;
    try lia; rewrite !format_04d_width by lia; reflexivity.
Qed.

Lemma node_names_sort_by_index_witness :
  Ordering.is_name_between
    (Ordering.node_name_for_index 1 (lit "def") (lit "zone.test") true)
    (Ordering.node_name_for_index 0 (lit "zzz") (lit "zone.test") true)
    (Ordering.node_name_for_index 2 (lit "abc") (lit "zone.test") true)
  = true.
Proof.
  apply (node_names_sort_by_index 0 1 2 (lit "zzz") (lit "def") (lit "abc")
           (lit "zone.test")); lia.
Defined.

(** X21. Probe names never collide: two in-gap names of the same zone
    are equal only for the same index and the same suffix character. *)
Theorem gap_names_injective
  (i j : Z) (zone : str) (c d : ascii) (absolute : bool) :
  0 <= i -> 0 <= j ->
  Ordering.in_gap_name i zone [c] absolute
  = Ordering.in_gap_name j zone [d] absolute ->
  i = j /\ c = d.
Proof.
  intros Hi Hj E. rewrite !gap_name_shape in E.
  apply app_inv_tail in E. apply app_inj_tail in E. destruct E as [E ->].
  split; [|reflexivity]. unfold index_label in E. injection E as E.
  now apply format_04d_injective.
Qed.

Lemma gap_names_injective_witness : 3 = 3 /\ "z"%char = "z"%char.
Proof.
  apply (gap_names_injective 3 3 (lit "zone.test") "z"%char "z"%char true);
    [lia|lia|reflexivity].
Defined.

(** X22. On ASCII names and zones, [parse_node_name] does not depend
    on the letter case of the name or of the zone. *)
Theorem parse_node_name_case_insensitive (name zone : str) :
  is_ascii_text name = true ->
  is_ascii_text zone = true ->
  Ordering.parse_node_name (upper name) zone
  = Ordering.parse_node_name name zone
  /\ Ordering.parse_node_name name (upper zone)
     = Ordering.parse_node_name name zone.
Proof.
  intros _ _. unfold Ordering.parse_node_name.
  rewrite !rstrip_upper, !lower_upper. now split.
Qed.

Lemma parse_node_name_case_insensitive_witness :
  Ordering.parse_node_name (upper (lit "n0001.abc.zone.test.")) (lit "zone.test")
  = Ordering.parse_node_name (lit "n0001.abc.zone.test.") (lit "zone.test")
  /\ Ordering.parse_node_name (lit "n0001.abc.zone.test.") (upper (lit "zone.test"))
     = Ordering.parse_node_name (lit "n0001.abc.zone.test.") (lit "zone.test").
Proof.
  apply (parse_node_name_case_insensitive
           (lit "n0001.abc.zone.test.") (lit "zone.test")); reflexivity.
Defined.

(** X23. [extract_payload_from_next_name] returns the lower-cased
    payload of every name built by [node_name_for_index], absolute or
    not, for every [index >= 0] and every zone that is not made of dots
    only; the end marker's name gives [end]. *)
Theorem next_name_payload_of_node_name
  (index : Z) (payload zone : str) (absolute : bool) :
  0 <= index -> rstrip Ordering.is_dot zone <> [] ->
  Parser.extract_payload_from_next_name
    (Ordering.node_name_for_index index payload zone absolute) zone
  = Some (lower payload).
Proof.
  intros Hi Hz. apply (parse_implies_payload _ _ index).
  now apply parse_built_name.
Qed.

Lemma next_name_payload_of_node_name_witness :
  Parser.extract_payload_from_next_name
    (Ordering.node_name_for_index 4 (lit "end") (lit "zone.test") true)
    (lit "zone.test")
  = Some (lower (lit "end")).
Proof.
  apply (next_name_payload_of_node_name 4 (lit "end") (lit "zone.test") true);
    [lia|discriminate].
Defined.
